(** * Tiller admission interceptors and the [helm lint] driver

    A shallow embedding of [pkg/tiller/server.go] (the gRPC interceptors
    that gate every call on client version and forwarded identity) and of
    the [helm lint] command ([lintCmd.run] and [lintChart]), followed by the
    properties the specification states about them.

    Go strings are byte strings and are modelled by [string]; a Go [map]
    is a [gmap]; [nil] errors and [nil] interface values are [None]. *)

From Stdlib Require Import String Ascii List ZArith Lia DecimalString.
From stdpp Require Import base option gmap strings list.

Local Open Scope string_scope.
Local Open Scope Z_scope.

(* ===================================================================== *)
(** * Part I: definitions                                                  *)
(* ===================================================================== *)

(** ** The functions of Go's [strings] package the sources call.

    Every separator passed by the sources is a one-byte literal (["/"],
    ["|"], ["-"]), so the separator is an [ascii]. *)
Module strings.

(** [strings.Split(s, sep)]: the fragments of [s] around each occurrence
    of [sep]; a string without [sep] (the empty string too) gives the
    one-element slice [[s]]. *)
Fixpoint Split (s : string) (sep : ascii) : list string :=
  match s with
  | EmptyString => [EmptyString]
  | String c rest =>
      if Ascii.eqb c sep then EmptyString :: Split rest sep
      else match Split rest sep with
           | frag :: frags => String c frag :: frags
           | [] => [String c EmptyString]
           end
  end.

(** [strings.Join(elems, sep)]. *)
Definition Join (elems : list string) (sep : string) : string :=
  String.concat sep elems.

(** [strings.HasSuffix(s, suffix)]. *)
Definition HasSuffix (s suffix : string) : bool :=
  let n := String.length s in
  let k := String.length suffix in
  (k <=? n)%nat && String.eqb (String.substring (n - k) k s) suffix.

(** [strings.LastIndex(s, sep)] for a one-byte [sep]: the byte index of
    the last occurrence, or [-1]. *)
Fixpoint LastIndex (s : string) (sep : ascii) : Z :=
  match s with
  | EmptyString => -1
  | String c rest =>
      let i := LastIndex rest sep in
      if 0 <=? i then i + 1
      else if Ascii.eqb c sep then 0 else -1
  end.

(** Number of occurrences of a byte ([strings.Count] with a one-byte
    separator); used to describe the shape of [Split]'s result. *)
Fixpoint Count (s : string) (sep : ascii) : nat :=
  match s with
  | EmptyString => O
  | String c rest => ((if Ascii.eqb c sep then 1 else 0) + Count rest sep)%nat
  end.

End strings.

(** ** [pkg/tiller/server.go] *)
Module Tiller.

(** [metadata.MD] is [map[string][]string]. *)
Abbreviation MD := (gmap string (list string)).

(** A [context.Context], as far as the interceptors look at it: the
    incoming metadata, if any was attached. *)
Record context_Context := { incoming : option MD }.

(** [metadata.FromIncomingContext(ctx)]: [(md, ok)]. *)
Definition metadata_FromIncomingContext (ctx : context_Context) : option MD :=
  incoming ctx.

(** A Go [error] made by [fmt.Errorf] is its message. *)
Definition error := string.

Module UnaryServerInfo.
Record t := { FullMethod : string }.
End UnaryServerInfo.

Module StreamServerInfo.
Record t := { FullMethod : string; IsClientStream : bool; IsServerStream : bool }.
End StreamServerInfo.

(** [grpc.ServerStream]: only [Context()] is used. *)
Module ServerStream.
Record t := { Context : context_Context }.
End ServerStream.

(** [ServerOptsFactory]. *)
Record ServerOptsFactory := { AuthProxyEnabled : bool }.

(** What lies outside this file: package [version], the [%v] rendering of
    a metadata map by [fmt], and the state [World] that business handlers
    and the instrumentation of go-grpc-prometheus act on. *)
Class Externals := {
  World : Type;
  Req : Type;
  Resp : Type;
  Srv : Type;
  version_IsCompatible : string -> string -> bool;
  version_GetVersion : string;
  fmt_MD : MD -> string;
}.

Section Server.
Context `{Externals}.

(** The part of the server process a call can change: the lines written
    through package [log], and the world behind the handlers. *)
Record Process := { logged : list string; backend : World }.

(** Effectful code is a state transformer over [Process]. *)
Definition M (A : Type) : Type := Process -> A * Process.

Definition ret {A} (a : A) : M A := fun s => (a, s).

Definition bind {A B} (m : M A) (k : A -> M B) : M B :=
  fun s => let (a, s') := m s in k a s'.

Definition run {A} (m : M A) (s : Process) : A * Process := m s.

(** [log.Println] / [log.Printf]: one more line of log output (the
    timestamp prefix of package [log] is left out). *)
Definition log_line (line : string) : M unit :=
  fun s => (tt, {| logged := logged s ++ [line]; backend := backend s |}).

End Server.

Notation "'do' x <- m ; k" := (bind m (fun x => k))
  (at level 10, x name, m at level 100, k at level 200).
Notation "m ;; k" := (bind m (fun _ => k))
  (at level 100, k at level 200, right associativity).

(** [grpc.UnaryHandler] and [grpc.StreamHandler]. *)
Definition UnaryHandler `{Externals} : Type :=
  context_Context -> Req -> M (option Resp * option error).
Definition StreamHandler `{Externals} : Type :=
  Srv -> ServerStream.t -> M (option error).

(** The instrumentation layer, [goprom.UnaryServerInterceptor] and
    [goprom.StreamServerInterceptor]. *)
Class Instrumentation `{Externals} := {
  goprom_UnaryServerInterceptor :
    context_Context -> Req -> UnaryServerInfo.t -> UnaryHandler ->
    M (option Resp * option error);
  goprom_StreamServerInterceptor :
    Srv -> ServerStream.t -> StreamServerInfo.t -> StreamHandler ->
    M (option error);
}.

Section Interceptors.
Context `{Instrumentation}.

Definition splitMethod (fullMethod : string) : string * string :=
  let frags := strings.Split fullMethod "/" in
  if (length frags =? 3)%nat
  then (nth 1 frags "", nth 2 frags "")
  else ("unknown", "unknown").

Definition versionFromContext (ctx : context_Context) : string :=
  match metadata_FromIncomingContext ctx with
  | Some md =>
      match md !! "x-helm-api-client" with
      | Some (v0 :: _) => v0
      | _ => ""
      end
  | None => ""
  end.

Definition checkClientVersion (ctx : context_Context) : option error :=
  let clientVersion := versionFromContext ctx in
  if negb (version_IsCompatible clientVersion version_GetVersion)
  then Some ("incompatible versions client[" ++ clientVersion
             ++ "] server[" ++ version_GetVersion ++ "]")
  else None.

Definition authenticatedUserFromContext (ctx : context_Context)
  : M (string * list string) :=
  match metadata_FromIncomingContext ctx with
  | Some md =>
      log_line ("Request Metadata: " ++ fmt_MD md) ;;
      let user :=
        match md !! "x-forwarded-user" with
        | Some (v0 :: _) => v0
        | _ => ""
        end in
      let groups :=
        match md !! "x-forwarded-groups" with
        | Some (v0 :: _) => strings.Split v0 "|"
        | _ => []
        end in
      ret (user, groups)
  | None => ret ("", [])
  end.

Definition checkAuthenticatedUser (ctx : context_Context) : M (option error) :=
  do ug <- authenticatedUserFromContext ctx ;
  let (u, g) := ug in
  if String.eqb u ""
  then ret (Some "unauthorized access to tiller")
  else
    log_line ("Authenticated as: user=" ++ u ++ ", groups="
              ++ strings.Join g ",") ;;
    ret None.

Definition optionallyCheckAuthenticatedUser
    (f : ServerOptsFactory) (ctx : context_Context) : M (option error) :=
  if AuthProxyEnabled f then checkAuthenticatedUser ctx else ret None.

Definition newUnaryInterceptor (f : ServerOptsFactory)
    (ctx : context_Context) (req : Req) (info : UnaryServerInfo.t)
    (handler : UnaryHandler) : M (option Resp * option error) :=
  let proceed :=
    do aerr <- optionallyCheckAuthenticatedUser f ctx ;
    match aerr with
    | Some err => ret (None, Some err)
    | None => goprom_UnaryServerInterceptor ctx req info handler
    end in
  match checkClientVersion ctx with
  | Some err =>
      (* whitelist GetVersion() from the version check *)
      if negb (String.eqb (snd (splitMethod (UnaryServerInfo.FullMethod info)))
                 "GetVersion")
      then log_line err ;; ret (None, Some err)
      else proceed
  | None => proceed
  end.

Definition newStreamInterceptor (f : ServerOptsFactory)
    (srv : Srv) (ss : ServerStream.t) (info : StreamServerInfo.t)
    (handler : StreamHandler) : M (option error) :=
  let ctx := ServerStream.Context ss in
  match checkClientVersion ctx with
  | Some err => log_line err ;; ret (Some err)
  | None =>
      do aerr <- optionallyCheckAuthenticatedUser f ctx ;
      match aerr with
      | Some err => ret (Some err)
      | None => goprom_StreamServerInterceptor srv ss info handler
      end
  end.

End Interceptors.

(** *** Vocabulary of the specification *)

(** The outcome of admission, [PENDING -> {ADMITTED, REJECTED(reason)}]. *)
Inductive admission :=
| Rejected (reason : error)
| Accepted.

Section Specification.
Context `{Instrumentation}.

(** The admission sequence in the specification's words: run the
    Version Gate; if it fails and the call is not exempt, reject with
    its error (logged once) without running the Auth Gate; otherwise
    run the Auth Gate and reject with its error if it fails. *)
Definition admission_sequence (exempt : bool) (f : ServerOptsFactory)
    (ctx : context_Context) : M admission :=
  match checkClientVersion ctx with
  | Some mismatch =>
      if exempt
      then do a <- optionallyCheckAuthenticatedUser f ctx ;
           ret (match a with Some e => Rejected e | None => Accepted end)
      else log_line mismatch ;; ret (Rejected mismatch)
  | None =>
      do a <- optionallyCheckAuthenticatedUser f ctx ;
      ret (match a with Some e => Rejected e | None => Accepted end)
  end.

(** The unary interceptor once the Version Gate has let the call
    through: the Auth Gate, then the instrumented handler. *)
Definition unary_after_version_gate (f : ServerOptsFactory)
    (ctx : context_Context) (req : Req) (info : UnaryServerInfo.t)
    (handler : UnaryHandler) : M (option Resp * option error) :=
  do aerr <- optionallyCheckAuthenticatedUser f ctx ;
  match aerr with
  | Some err => ret (None, Some err)
  | None => goprom_UnaryServerInterceptor ctx req info handler
  end.

(** The method component of a call and whether it is the exempt one. *)
Definition method_of (fullMethod : string) : string :=
  snd (splitMethod fullMethod).

Definition is_exempt (fullMethod : string) : bool :=
  String.eqb (method_of fullMethod) "GetVersion".

(** The forwarded-user header is absent (no metadata, no such key, or
    no value under the key) or its first value is empty. *)
Definition no_forwarded_user (ctx : context_Context) : Prop :=
  match metadata_FromIncomingContext ctx with
  | None => True
  | Some md =>
      match md !! "x-forwarded-user" with
      | Some (u :: _) => u = ""
      | _ => True
      end
  end.

(** The log lines the Auth Gate writes before it looks at the user. *)
Definition metadata_record (ctx : context_Context) : list string :=
  match metadata_FromIncomingContext ctx with
  | Some md => ["Request Metadata: " ++ fmt_MD md]
  | None => []
  end.

Definition with_log (s : Process) (lines : list string) : Process :=
  {| logged := logged s ++ lines; backend := backend s |}.

(** [sub] occurs in [s]. *)
Definition contains (s sub : string) : Prop :=
  exists before after, s = before ++ sub ++ after.

End Specification.

(** *** The two errors of the interceptors *)
Section Errors.
Context `{Instrumentation}.

(** The error of [checkClientVersion] for the client version a context
    carries. *)
Definition VersionMismatch (ctx : context_Context) : error :=
  "incompatible versions client[" ++ versionFromContext ctx
  ++ "] server[" ++ version_GetVersion ++ "]".

(** The error of [checkAuthenticatedUser]. *)
Definition Unauthorized : error := "unauthorized access to tiller".

End Errors.

(** *** A concrete server, to run the interceptors on *)
Module Demo.

(** Same text before the first dot, and a client version at all. *)
Definition same_major (client server : string) : bool :=
  negb (String.eqb client "")
  && String.eqb (hd "" (strings.Split client "."))
                (hd "" (strings.Split server ".")).

Definition render (md : MD) : string :=
  "map[" ++ strings.Join
              (map (fun kv => fst kv ++ ":[" ++ strings.Join (snd kv) " " ++ "]")
                   (map_to_list md)) " "
  ++ "]".

(** The world counts the calls that reached a business handler. *)
#[local] Instance externals : Externals := {|
  World := nat;
  Req := string;
  Resp := string;
  Srv := unit;
  version_IsCompatible := same_major;
  version_GetVersion := "v2.9.0";
  fmt_MD := render;
|}.

#[local] Instance instrumentation : Instrumentation := {|
  goprom_UnaryServerInterceptor := fun ctx req _ handler => handler ctx req;
  goprom_StreamServerInterceptor := fun srv ss _ handler => handler srv ss;
|}.

Definition handled : M unit :=
  fun s => (tt, {| logged := logged s; backend := S (backend s : nat) |}).

Definition echo : UnaryHandler :=
  fun _ req => handled ;; ret (Some req, None).

Definition drain : StreamHandler :=
  fun _ _ => handled ;; ret None.

Definition state (lines : list string) (handled_calls : nat) : Process :=
  {| logged := lines; backend := handled_calls |}.

Definition idle : Process := state [] O.

Definition request (payload : string) : Req := payload.
Definition reply (payload : string) : option Resp := Some payload.
Definition server : Srv := tt.

Definition call (headers : list (string * list string)) : context_Context :=
  {| incoming := Some (list_to_map headers) |}.

Definition GetVersion_method : string :=
  "/hapi.services.tiller.ReleaseService/GetVersion".

Definition enforcing : ServerOptsFactory := {| AuthProxyEnabled := true |}.
Definition open_door : ServerOptsFactory := {| AuthProxyEnabled := false |}.

End Demo.

End Tiller.

(** ** The [helm lint] command *)
Module Lint.

(** A one-line-feed string, the ["\n"] of Go. *)
Definition nl : string := String (ascii_of_nat 10) EmptyString.

(** [%d] of an [int]. *)
Definition fmt_d (z : Z) : string := NilZero.string_of_int (Z.to_int z).

(** Go's [int] is 64 bits wide and wraps around. *)
Definition wrap_int (z : Z) : Z := (z + 2 ^ 63) mod 2 ^ 64 - 2 ^ 63.
Definition int_add (a b : Z) : Z := wrap_int (a + b).

(** Go compares errors by identity: [errLintNoChart] is one package-level
    value, and every other error ([fmt.Errorf], or one handed back by
    [io/ioutil], [os], [chartutil]) is a different value whatever its
    message. *)
Inductive error :=
| errLintNoChart
| errorString (msg : string).

Definition Error (e : error) : string :=
  match e with
  | errLintNoChart => "No chart found for linting (missing Chart.yaml)"
  | errorString msg => msg
  end.

Definition error_eqb (a b : error) : bool :=
  match a, b with
  | errLintNoChart, errLintNoChart => true
  | errorString x, errorString y => String.eqb x y
  | _, _ => false
  end.

(** [filepath.Base] on a Unix path. *)
Fixpoint strip_trailing_slashes (p : string) : string :=
  match p with
  | EmptyString => EmptyString
  | String c rest =>
      let rest' := strip_trailing_slashes rest in
      if String.eqb rest' "" && Ascii.eqb c "/" then EmptyString
      else String c rest'
  end.

Definition filepath_Base (path : string) : string :=
  if String.eqb path "" then "."
  else
    let p := strip_trailing_slashes path in
    let i := strings.LastIndex p "/" in
    let p := if 0 <=? i
             then String.substring (Z.to_nat (i + 1))
                    (String.length p - Z.to_nat (i + 1)) p
             else p in
    if String.eqb p "" then "/" else p.

(** What lies outside this file. [FS] is the state of the file system;
    [vals] is the value-merging helper of the install command;
    [support.Message] and the severities belong to the lint engine;
    errors handed back by [io/ioutil], [os] and [chartutil] are their
    messages. *)
Class Externals := {
  FS : Type;
  File : Type;
  Message : Type;
  Message_Error : Message -> string;
  support_WarningSev : Z;
  support_ErrorSev : Z;
  vals : list string -> list string -> list string -> list string ->
         string -> string -> string -> FS -> (list Byte.byte + error) * FS;
  ioutil_TempDir : string -> string -> FS -> (string + string) * FS;
  os_Open : string -> FS -> (File + string) * FS;
  os_Close : File -> FS -> unit * FS;
  os_RemoveAll : string -> FS -> unit * FS;
  os_Stat : string -> FS -> bool;
  chartutil_Expand : string -> File -> FS -> option string * FS;
  filepath_Join : string -> string -> string;
  fmt_q : string -> string;
}.

(** State transformers, over the file system alone ([lintChart]) or over
    the whole process ([run]). *)
Definition M (S A : Type) : Type := S -> A * S.
Definition ret {S A} (a : A) : M S A := fun s => (a, s).
Definition bind {S A B} (m : M S A) (k : A -> M S B) : M S B :=
  fun s => let (a, s') := m s in k a s'.

Notation "'do' x <- m ; k" := (bind m (fun x => k))
  (at level 10, x name, m at level 100, k at level 200).
Notation "m ;; k" := (bind m (fun _ => k))
  (at level 100, k at level 200, right associativity).

(** [support.Linter]. *)
Record Linter `{Externals} := {
  Messages : list Message;
  HighestSeverity : Z;
  ChartDir : string;
}.

(** The zero value [support.Linter{}]. *)
Definition Linter_zero `{Externals} : Linter :=
  {| Messages := []; HighestSeverity := 0; ChartDir := "" |}.

(** The lint engine, [lint.All]. *)
Class Engine `{Externals} := {
  lint_All : string -> list Byte.byte -> string -> bool -> FS -> Linter * FS;
}.

Section Command.
Context `{Engine}.

Record lintCmd := {
  valueFiles : list string;
  values : list string;
  sValues : list string;
  fValues : list string;
  namespace : string;
  strict : bool;
  paths : list string;
  certFile : string;
  keyFile : string;
  caFile : string;
}.

(** What the command writes: lines on standard output ([fmt.Println])
    and text on the writer [l.out]. *)
Inductive output :=
| Stdout (line : string)
| Out (text : string).

Record Process := { fs : FS; written : list output }.

Definition on_fs {A} (m : M FS A) : M Process A :=
  fun s => let (a, fs') := m (fs s) in
           (a, {| fs := fs'; written := written s |}).

Definition emit (o : output) : M Process unit :=
  fun s => (tt, {| fs := fs s; written := written s ++ [o] |}).

Definition fmt_Println (line : string) : M Process unit := emit (Stdout line).

(** The guard at the end of [lintChart] and the call of the engine. *)
Definition lint_dir (chartPath : string) (vals : list Byte.byte)
    (namespace : string) (strict : bool) : M FS (Linter * option error) :=
  fun s =>
    if os_Stat (filepath_Join chartPath "Chart.yaml") s
    then let (linter, s') := lint_All chartPath vals namespace strict s in
         ((linter, None), s')
    else ((Linter_zero, Some errLintNoChart), s).

Definition lintChart (path : string) (vals : list Byte.byte)
    (namespace : string) (strict : bool) : M FS (Linter * option error) :=
  let linter := Linter_zero in
  if strings.HasSuffix path ".tgz" then
    do t <- ioutil_TempDir "" "helm-lint" ;
    match t with
    | inr err => ret (linter, Some (errorString err))
    | inl tempDir =>
        do r <-
          (do o <- os_Open path ;
           match o with
           | inr err => ret (linter, Some (errorString err))
           | inl file =>
               do r <-
                 (do e <- chartutil_Expand tempDir file ;
                  match e with
                  | Some err => ret (linter, Some (errorString err))
                  | None =>
                      let lastHyphenIndex :=
                        strings.LastIndex (filepath_Base path) "-" in
                      if lastHyphenIndex <=? 0
                      then ret (linter,
                                Some (errorString
                                        ("unable to parse chart archive "
                                         ++ fmt_q (filepath_Base path)
                                         ++ ", missing '-'")))
                      else
                        let base :=
                          String.substring 0 (Z.to_nat lastHyphenIndex)
                            (filepath_Base path) in
                        lint_dir (filepath_Join tempDir base)
                          vals namespace strict
                  end) ;
               (* defer file.Close() *)
               os_Close file ;; ret r
           end) ;
        (* defer os.RemoveAll(tempDir) *)
        os_RemoveAll tempDir ;; ret r
    end
  else lint_dir path vals namespace strict.

(** [for _, msg := range linter.Messages { fmt.Println(msg) }] *)
Fixpoint print_messages (msgs : list Message) : M Process unit :=
  match msgs with
  | [] => ret tt
  | msg :: rest => fmt_Println (Message_Error msg) ;; print_messages rest
  end.

(** One iteration of the loop over [l.paths]. *)
Definition lint_path (l : lintCmd) (rvals : list Byte.byte)
    (lowestTolerance : Z) (path : string) (total failures : Z)
  : M Process (Z * Z) :=
  do r <- on_fs (lintChart path rvals (namespace l) (strict l)) ;
  let (linter, err) := r in
  do counts <-
    match err with
    | Some err =>
        fmt_Println ("==> Skipping " ++ path) ;;
        fmt_Println (Error err) ;;
        ret (total, if error_eqb err errLintNoChart
                    then int_add failures 1 else failures)
    | None =>
        fmt_Println ("==> Linting " ++ path) ;;
        (if (length (Messages linter) =? 0)%nat
         then fmt_Println "Lint OK" else ret tt) ;;
        print_messages (Messages linter) ;;
        ret (int_add total 1,
             if lowestTolerance <=? HighestSeverity linter
             then int_add failures 1 else failures)
    end ;
  fmt_Println "" ;;
  ret counts.

Fixpoint lint_paths (l : lintCmd) (rvals : list Byte.byte)
    (lowestTolerance : Z) (paths : list string) (total failures : Z)
  : M Process (Z * Z) :=
  match paths with
  | [] => ret (total, failures)
  | path :: rest =>
      do counts <- lint_path l rvals lowestTolerance path total failures ;
      lint_paths l rvals lowestTolerance rest (fst counts) (snd counts)
  end.

Definition run (l : lintCmd) : M Process (option error) :=
  let lowestTolerance :=
    if strict l then support_WarningSev else support_ErrorSev in
  (* Get the raw values *)
  do v <- on_fs (vals (valueFiles l) (values l) (sValues l) (fValues l)
                   (certFile l) (keyFile l) (caFile l)) ;
  match v with
  | inr err => ret (Some err)
  | inl rvals =>
      do counts <- lint_paths l rvals lowestTolerance (paths l) 0 0 ;
      let (total, failures) := counts in
      let msg := fmt_d total ++ " chart(s) linted" in
      if 0 <? failures
      then ret (Some (errorString
                        (msg ++ ", " ++ fmt_d failures ++ " chart(s) failed")))
      else emit (Out (msg ++ ", no failures" ++ nl)) ;; ret None
  end.

End Command.

(** *** Vocabulary of the specification *)
Section Specification.
Context `{Engine}.

(** The tolerance: warning level under [--strict], error level
    otherwise. *)
Definition tolerance (l : lintCmd) : Z :=
  if strict l then support_WarningSev else support_ErrorSev.

(** What [lintChart] answers for each path in turn, the file system
    being handed from one call to the next. *)
Fixpoint lint_each (l : lintCmd) (rvals : list Byte.byte)
    (paths : list string) (disk : FS) : list (Linter * option error) :=
  match paths with
  | [] => []
  | path :: rest =>
      let (r, disk') := lintChart path rvals (namespace l) (strict l) disk in
      r :: lint_each l rvals rest disk'
  end.

(** A path fails: no chart was found, or the chart was linted and its
    highest severity reaches the tolerance. *)
Definition path_fails (tol : Z) (r : Linter * option error) : bool :=
  match snd r with
  | Some err => error_eqb err errLintNoChart
  | None => tol <=? HighestSeverity (fst r)
  end.

(** A path was linted: [lintChart] gave no error. *)
Definition path_linted (r : Linter * option error) : bool :=
  match snd r with
  | Some _ => false
  | None => true
  end.

(** A path failed with an error other than [errLintNoChart]. *)
Definition other_error (r : Linter * option error) : Prop :=
  exists err, snd r = Some err /\ err <> errLintNoChart.

(** The counters after one more path. *)
Definition count_path (tol : Z) (counts : Z * Z)
    (r : Linter * option error) : Z * Z :=
  (if path_linted r then int_add (fst counts) 1 else fst counts,
   if path_fails tol r then int_add (snd counts) 1 else snd counts).

End Specification.

(** *** [newLintCmd] *)
Section Cobra.
Context `{Engine}.

(** The [lintCmd] that [newLintCmd] allocates, once the flag set has
    filled the fields it is bound to: [paths] is [["."]], and no flag is
    bound to [namespace], which keeps its zero value. *)
Definition newLintCmd (valueFiles values sValues fValues : list string)
    (strict : bool) (certFile keyFile caFile : string) : lintCmd :=
  {| valueFiles := valueFiles; values := values; sValues := sValues;
     fValues := fValues; namespace := ""; strict := strict; paths := ["."];
     certFile := certFile; keyFile := keyFile; caFile := caFile |}.

(** The chart directory of an archive, [filepath.Join(tempDir, base)] with
    [base] the base name of the path up to its last hyphen. *)
Definition archive_chart_path (tempDir path : string) : string :=
  filepath_Join tempDir
    (String.substring 0
       (Z.to_nat (strings.LastIndex (filepath_Base path) "-"))
       (filepath_Base path)).

(** [l.paths = args] *)
Definition set_paths (l : lintCmd) (args : list string) : lintCmd :=
  {| valueFiles := valueFiles l; values := Lint.values l;
     sValues := sValues l; fValues := fValues l; namespace := namespace l;
     strict := strict l; paths := args;
     certFile := certFile l; keyFile := keyFile l; caFile := caFile l |}.

(** The [RunE] closure of the command. *)
Definition RunE (l : lintCmd) (args : list string) : M Process (option error) :=
  let l := if (0 <? length args)%nat then set_paths l args else l in
  run l.

(** The lines one path puts on standard output. *)
Definition report (path : string) (r : Linter * option error) : list string :=
  match snd r with
  | Some err => ["==> Skipping " ++ path; Error err; ""]
  | None =>
      (("==> Linting " ++ path)%string
       :: (if (length (Messages (fst r)) =? 0)%nat then ["Lint OK"] else [])
       ++ map Message_Error (Messages (fst r)) ++ [""])%list
  end.

(** The lines all paths put on standard output, in the order of the
    paths. *)
Fixpoint reports (paths : list string) (results : list (Linter * option error))
  : list string :=
  match paths, results with
  | path :: paths', r :: results' => (report path r ++ reports paths' results')%list
  | _, _ => []
  end.

End Cobra.

(** *** A concrete file system and engine, to run the command on *)
Module Demo.

Definition exists_on (disk : list string) (path : string) : bool :=
  existsb (String.eqb path) disk.

Definition quote : string := String (ascii_of_nat 34) EmptyString.

Definition no_such_file (path : string) : string :=
  "open " ++ path ++ ": no such file or directory".

(** The file system is the list of the paths that exist.  Expanding an
    archive unpacks a chart directory [mychart]; an archive named
    [corrupt-...] does not expand. *)
#[local] Instance externals : Externals := {|
  FS := list string;
  File := string;
  Message := string;
  Message_Error := fun msg => msg;
  support_WarningSev := 2;
  support_ErrorSev := 3;
  vals := fun valueFiles _ _ _ _ _ _ disk =>
    match find (fun f => negb (exists_on disk f)) valueFiles with
    | Some f => (inr (errorString (no_such_file f)), disk)
    | None => (inl [], disk)
    end;
  ioutil_TempDir := fun _ prefix disk => (inl ("/tmp/" ++ prefix), disk);
  os_Open := fun path disk =>
    if exists_on disk path then (inl path, disk)
    else (inr (no_such_file path), disk);
  os_Close := fun _ disk => (tt, disk);
  os_RemoveAll := fun dir disk =>
    (tt, List.filter (fun p => negb (String.prefix dir p)) disk);
  os_Stat := fun path disk => exists_on disk path;
  chartutil_Expand := fun dir file disk =>
    if String.prefix "corrupt" file
    then (Some "gzip: invalid header", disk)
    else (None, (dir ++ "/mychart/Chart.yaml") :: disk);
  filepath_Join := fun a b => a ++ "/" ++ b;
  fmt_q := fun s => quote ++ s ++ quote;
|}.

(** A chart without [templates] earns a warning. *)
#[local] Instance engine : Engine := {|
  lint_All := fun chartPath _ _ _ disk =>
    if exists_on disk (chartPath ++ "/templates")
    then ({| Messages := []; HighestSeverity := 0; ChartDir := chartPath |},
          disk)
    else ({| Messages := ["[WARNING] templates/: directory not found"];
             HighestSeverity := 2; ChartDir := chartPath |}, disk);
|}.

Definition command (strict : bool) (valueFiles paths : list string) : lintCmd :=
  {| valueFiles := valueFiles; values := []; sValues := []; fValues := [];
     namespace := ""; strict := strict; paths := paths;
     certFile := ""; keyFile := ""; caFile := "" |}.

Definition disk : list string :=
  ["good/Chart.yaml"; "good/templates"; "bare/Chart.yaml";
   "nohyphen.tgz"; "corrupt-1.0.0.tgz"].

Definition start : Process := {| fs := disk; written := [] |}.

Definition result_of (r : Linter * option error) : Z * option error :=
  (HighestSeverity (fst r), snd r).

(** The file system [disk], the same with a packaged chart on it, and
    each with what expanding an archive leaves. *)
Definition plain : FS := disk.
Definition shelf : FS := "repo/mychart-1.2.3.tgz" :: disk.
Definition unpacked (d : FS) : FS := "/tmp/helm-lint/mychart/Chart.yaml" :: d.

Definition opened (path : string) : File := path.

End Demo.

End Lint.

(* ===================================================================== *)
(** * Part II: properties                                                  *)
(* ===================================================================== *)

(** ** [strings.Split] *)
Module stringsFacts.
Import strings.

(** stdpp keeps [String.append] folded under [simpl]; its two equations. *)
Lemma append_nil_l (s : string) : "" ++ s = s.
Proof. reflexivity. Qed.

Lemma append_cons (c : ascii) (s t : string) :
  String c s ++ t = String c (s ++ t).
Proof. reflexivity. Qed.

Lemma append_nil_r (s : string) : s ++ "" = s.
Proof.
  induction s as [|c s IH]; [reflexivity |].
  now rewrite append_cons, IH.
Qed.

Lemma append_assoc (a b c : string) : (a ++ b) ++ c = a ++ (b ++ c).
Proof.
  induction a as [|x a IH]; [reflexivity |].
  now rewrite !append_cons, IH.
Qed.

Lemma Split_not_nil (s : string) (sep : ascii) : Split s sep <> [].
Proof.
  destruct s as [|c s]; simpl; [discriminate |].
  destruct (Ascii.eqb c sep); [discriminate |].
  destruct (Split s sep); discriminate.
Qed.

(** One fragment more than there are separators. *)
Lemma length_Split (s : string) (sep : ascii) :
  length (Split s sep) = S (Count s sep).
Proof.
  induction s as [|c s IH]; simpl; [reflexivity |].
  destruct (Ascii.eqb c sep); simpl.
  - now rewrite IH.
  - destruct (Split s sep) as [|frag frags] eqn:E; simpl in *; congruence.
Qed.

Lemma Count_app (a b : string) (sep : ascii) :
  Count (a ++ b) sep = (Count a sep + Count b sep)%nat.
Proof.
  induction a as [|c a IH]; [reflexivity |].
  rewrite append_cons. simpl. rewrite IH. lia.
Qed.

Lemma Split_sep_free (s : string) (sep : ascii) :
  Count s sep = O -> Split s sep = [s].
Proof.
  induction s as [|c s IH]; simpl; [reflexivity |].
  destruct (Ascii.eqb c sep); simpl; [discriminate |].
  intros Hc. now rewrite (IH Hc).
Qed.

Lemma Split_app (a b : string) (sep : ascii) :
  Count a sep = O -> Split (a ++ String sep b) sep = a :: Split b sep.
Proof.
  induction a as [|c a IH].
  - intros _. rewrite append_nil_l. simpl. now rewrite Ascii.eqb_refl.
  - rewrite append_cons. simpl.
    destruct (Ascii.eqb c sep); simpl; [discriminate |].
    intros Hc. now rewrite (IH Hc).
Qed.

(** A string with a separator in it splits at its first one. *)
Lemma Count_S_inv (s : string) (sep : ascii) (n : nat) :
  Count s sep = S n ->
  exists a b, s = a ++ String sep b /\ Count a sep = O /\ Count b sep = n.
Proof.
  induction s as [|c s IH]; simpl; [discriminate |].
  destruct (Ascii.eqb c sep) eqn:E; simpl; intros Hc.
  - apply Ascii.eqb_eq in E. subst c.
    exists "", s. split; [reflexivity |]. split; [reflexivity | congruence].
  - destruct (IH Hc) as (a & b & -> & Ha & Hb).
    exists (String c a), b. rewrite append_cons. simpl. rewrite E. auto.
Qed.

(** No fragment holds the separator: nothing escapes it. *)
Lemma Split_fragments (s : string) (sep : ascii) :
  Forall (fun frag => Count frag sep = O) (Split s sep).
Proof.
  induction s as [|c s IH]; simpl.
  - repeat constructor.
  - destruct (Ascii.eqb c sep) eqn:E.
    + constructor; [reflexivity | exact IH].
    + destruct (Split s sep) as [|frag frags].
      * repeat constructor. simpl. now rewrite E.
      * inversion IH; subst. constructor; [simpl; now rewrite E | assumption].
Qed.

Lemma Join_cons (x y : string) (rest : list string) (sep : string) :
  Join (x :: y :: rest) sep = x ++ sep ++ Join (y :: rest) sep.
Proof. reflexivity. Qed.

(** Joining the fragments with the separator gives the string back. *)
Lemma Join_Split (s : string) (sep : ascii) :
  Join (Split s sep) (String sep "") = s.
Proof.
  induction s as [|c s IH]; [reflexivity |].
  simpl Split.
  destruct (Split s sep) as [|frag frags] eqn:Es;
    [now destruct (Split_not_nil s sep) |].
  destruct (Ascii.eqb c sep) eqn:E.
  - apply Ascii.eqb_eq in E. subst c.
    rewrite Join_cons, IH. reflexivity.
  - destruct frags as [|frag' frags].
    + unfold Join in *. simpl in *. now rewrite IH.
    + rewrite Join_cons in *. rewrite append_cons. now rewrite IH.
Qed.

End stringsFacts.

(** ** The admission interceptors *)
Module TillerFacts.
Import strings stringsFacts Tiller.

Section Admission.
Context `{Instrumentation}.

Ltac run_monad :=
  unfold run, bind, ret, log_line, with_log in *; simpl in *.

(** *** Method names *)

Lemma splitMethod_fragments (pre svc m : string) :
  Count pre "/" = O -> Count svc "/" = O -> Count m "/" = O ->
  splitMethod (pre ++ "/" ++ svc ++ "/" ++ m) = (svc, m).
Proof.
  intros Hp Hs Hm. unfold splitMethod.
  change (pre ++ "/" ++ svc ++ "/" ++ m)
    with (pre ++ String "/" (svc ++ String "/" m)).
  rewrite (Split_app _ _ _ Hp), (Split_app _ _ _ Hs), (Split_sep_free _ _ Hm).
  reflexivity.
Qed.

Lemma splitMethod_unknown (s : string) :
  Count s "/" <> 2%nat -> splitMethod s = ("unknown", "unknown").
Proof.
  intros Hc. unfold splitMethod. rewrite length_Split.
  destruct (Nat.eqb_spec (S (Count s "/")) 3) as [E|E]; [lia | reflexivity].
Qed.

Lemma two_slashes_inv (s : string) :
  Count s "/" = 2%nat ->
  exists pre svc m,
    s = pre ++ "/" ++ svc ++ "/" ++ m
    /\ Count pre "/" = O /\ Count svc "/" = O /\ Count m "/" = O.
Proof.
  intros Hc.
  destruct (Count_S_inv _ _ _ Hc) as (pre & t & -> & Hp & Ht).
  destruct (Count_S_inv _ _ _ Ht) as (svc & m & -> & Hs & Hm).
  exists pre, svc, m. auto.
Qed.

(** C6, as the code has it: [splitMethod] looks only at the number of
    ["/"]-separated fragments.  A string with exactly two slashes,
    [pre/svc/m], yields [(svc, m)] whatever [pre] is and whether or not
    [svc] and [m] are empty; so ["/Svc/Method"] yields
    [("Svc", "Method")].  Every other string (fewer or more than two
    slashes) yields [("unknown", "unknown")], never an error. *)
Theorem splitMethod_three_fragments :
  (forall pre svc m : string,
      Count pre "/" = O -> Count svc "/" = O -> Count m "/" = O ->
      splitMethod (pre ++ "/" ++ svc ++ "/" ++ m) = (svc, m))
  /\ (forall s : string,
         Count s "/" = 2%nat ->
         exists pre svc m,
           s = pre ++ "/" ++ svc ++ "/" ++ m
           /\ Count pre "/" = O /\ Count svc "/" = O /\ Count m "/" = O)
  /\ (forall s : string,
         Count s "/" <> 2%nat -> splitMethod s = ("unknown", "unknown")).
Proof.
  split; [exact splitMethod_fragments |].
  split; [exact two_slashes_inv | exact splitMethod_unknown].
Qed.

(** A malformed method name never matches the exemption. *)
Lemma malformed_not_exempt (s : string) :
  Count s "/" <> 2%nat -> is_exempt s = false.
Proof.
  intros Hc. unfold is_exempt, method_of.
  now rewrite (splitMethod_unknown _ Hc).
Qed.

(** *** The gates *)

Lemma checkClientVersion_incompatible (ctx : context_Context) :
  version_IsCompatible (versionFromContext ctx) version_GetVersion = false ->
  checkClientVersion ctx =
    Some ("incompatible versions client[" ++ versionFromContext ctx
          ++ "] server[" ++ version_GetVersion ++ "]").
Proof. intros Hv. unfold checkClientVersion. now rewrite Hv. Qed.

Lemma checkClientVersion_compatible (ctx : context_Context) :
  version_IsCompatible (versionFromContext ctx) version_GetVersion = true ->
  checkClientVersion ctx = None.
Proof. intros Hv. unfold checkClientVersion. now rewrite Hv. Qed.

Lemma mismatch_contains_versions (client server : string) :
  let msg := "incompatible versions client[" ++ client
             ++ "] server[" ++ server ++ "]" in
  contains msg client /\ contains msg server.
Proof.
  split.
  - exists "incompatible versions client[", ("] server[" ++ server ++ "]").
    reflexivity.
  - exists ("incompatible versions client[" ++ client ++ "] server["), "]".
    now rewrite !append_assoc.
Qed.

(** The user and groups, and the log line, that
    [authenticatedUserFromContext] gives. *)
Lemma authenticatedUserFromContext_run (ctx : context_Context) (s : Process) :
  snd (run (authenticatedUserFromContext ctx) s)
  = with_log s (metadata_record ctx).
Proof.
  unfold authenticatedUserFromContext, metadata_record.
  destruct (metadata_FromIncomingContext ctx) as [md|]; run_monad.
  - reflexivity.
  - destruct s; simpl. now rewrite app_nil_r.
Qed.

Lemma no_forwarded_user_resolved (ctx : context_Context) (s : Process) :
  no_forwarded_user ctx ->
  fst (fst (run (authenticatedUserFromContext ctx) s)) = "".
Proof.
  unfold no_forwarded_user, authenticatedUserFromContext.
  destruct (metadata_FromIncomingContext ctx) as [md|]; run_monad;
    [| reflexivity].
  destruct (md !! "x-forwarded-user") as [[|u us]|]; simpl; auto.
Qed.

Lemma checkAuthenticatedUser_unauthorized (ctx : context_Context) (s : Process) :
  no_forwarded_user ctx ->
  run (checkAuthenticatedUser ctx) s
  = (Some "unauthorized access to tiller", with_log s (metadata_record ctx)).
Proof.
  intros Hu.
  pose proof (no_forwarded_user_resolved ctx s Hu) as Hr.
  pose proof (authenticatedUserFromContext_run ctx s) as Hs.
  unfold checkAuthenticatedUser. unfold run, bind in *.
  destruct (authenticatedUserFromContext ctx s) as [[u g] s'].
  simpl in Hr, Hs. subst u s'. reflexivity.
Qed.

Lemma optionallyCheck_disabled (ctx : context_Context) (s : Process) :
  run (optionallyCheckAuthenticatedUser {| AuthProxyEnabled := false |} ctx) s
  = (None, s).
Proof. reflexivity. Qed.

Lemma optionallyCheck_unauthorized
    (f : ServerOptsFactory) (ctx : context_Context) (s : Process) :
  AuthProxyEnabled f = true ->
  no_forwarded_user ctx ->
  run (optionallyCheckAuthenticatedUser f ctx) s
  = (Some "unauthorized access to tiller", with_log s (metadata_record ctx)).
Proof.
  intros He Hu. unfold optionallyCheckAuthenticatedUser. rewrite He.
  now apply checkAuthenticatedUser_unauthorized.
Qed.

(** The Auth Gate's decision is a function of the flag and the context
    alone: what has been logged or handled so far does not enter. *)
Lemma auth_decision_stateless
    (f : ServerOptsFactory) (ctx : context_Context) (s s' : Process) :
  fst (run (optionallyCheckAuthenticatedUser f ctx) s)
  = fst (run (optionallyCheckAuthenticatedUser f ctx) s').
Proof.
  unfold optionallyCheckAuthenticatedUser.
  destruct (AuthProxyEnabled f); [| reflexivity].
  unfold checkAuthenticatedUser, authenticatedUserFromContext.
  destruct (metadata_FromIncomingContext ctx) as [md|]; run_monad.
  - destruct (md !! "x-forwarded-user") as [[|u us]|]; simpl; try reflexivity.
    destruct (String.eqb u ""); reflexivity.
  - reflexivity.
Qed.

Lemma unary_exempt (f : ServerOptsFactory) (ctx : context_Context)
    (req : Req) (info : UnaryServerInfo.t) (handler : UnaryHandler) :
  method_of (UnaryServerInfo.FullMethod info) = "GetVersion" ->
  newUnaryInterceptor f ctx req info handler
  = unary_after_version_gate f ctx req info handler.
Proof.
  unfold method_of. intros Hm. unfold newUnaryInterceptor. rewrite Hm.
  destruct (checkClientVersion ctx); reflexivity.
Qed.

Lemma unary_compatible (f : ServerOptsFactory) (ctx : context_Context)
    (req : Req) (info : UnaryServerInfo.t) (handler : UnaryHandler) :
  checkClientVersion ctx = None ->
  newUnaryInterceptor f ctx req info handler
  = unary_after_version_gate f ctx req info handler.
Proof. intros Hv. unfold newUnaryInterceptor. now rewrite Hv. Qed.

Lemma unary_mismatch (f : ServerOptsFactory) (ctx : context_Context)
    (req : Req) (info : UnaryServerInfo.t) (handler : UnaryHandler)
    (s : Process) (err : error) :
  method_of (UnaryServerInfo.FullMethod info) <> "GetVersion" ->
  checkClientVersion ctx = Some err ->
  run (newUnaryInterceptor f ctx req info handler) s
  = ((None, Some err), with_log s [err]).
Proof.
  unfold method_of. intros Hm Hv. unfold newUnaryInterceptor. rewrite Hv.
  destruct (String.eqb_spec
              (snd (splitMethod (UnaryServerInfo.FullMethod info)))
              "GetVersion") as [E|E]; [contradiction | reflexivity].
Qed.

Lemma stream_mismatch (f : ServerOptsFactory) (srv : Srv)
    (ss : ServerStream.t) (info : StreamServerInfo.t)
    (handler : StreamHandler) (s : Process) (err : error) :
  checkClientVersion (ServerStream.Context ss) = Some err ->
  run (newStreamInterceptor f srv ss info handler) s
  = (Some err, with_log s [err]).
Proof. intros Hv. unfold newStreamInterceptor. now rewrite Hv. Qed.

(** *** The claims *)

(** C1. A unary call whose method component is not ["GetVersion"] and
    whose client version the compatibility predicate refuses is answered
    with the version-mismatch error, which holds both version strings.
    Nothing else happens: the only effect is the one log line of that
    error, so the Auth Gate (which logs the metadata when it runs on a
    call that has any) and the instrumented handler (which acts on the
    backend) were never reached, whatever the factory and handler. *)
Theorem unary_version_mismatch_rejected
    (f : ServerOptsFactory) (ctx : context_Context) (req : Req)
    (info : UnaryServerInfo.t) (handler : UnaryHandler) (s : Process) :
  method_of (UnaryServerInfo.FullMethod info) <> "GetVersion" ->
  version_IsCompatible (versionFromContext ctx) version_GetVersion = false ->
  let mismatch :=
    "incompatible versions client[" ++ versionFromContext ctx
    ++ "] server[" ++ version_GetVersion ++ "]" in
  run (newUnaryInterceptor f ctx req info handler) s
  = ((None, Some mismatch),
     {| logged := logged s ++ [mismatch]; backend := backend s |})
  /\ contains mismatch (versionFromContext ctx)
  /\ contains mismatch version_GetVersion.
Proof.
  intros Hm Hv mismatch. split.
  - apply (unary_mismatch f ctx req info handler s mismatch Hm).
    now apply checkClientVersion_incompatible.
  - apply mismatch_contains_versions.
Qed.

(** C3. A unary call whose method component is ["GetVersion"] is never
    turned away by the Version Gate: whatever the compatibility
    predicate says, the interceptor behaves as the Auth Gate followed by
    the instrumented handler.  The Auth Gate applies as for any call:
    with enforcement off the call reaches the handler, with enforcement
    on and no forwarded user it is refused as unauthorized. *)
Theorem unary_exempt_method_reaches_auth_gate
    (f : ServerOptsFactory) (ctx : context_Context) (req : Req)
    (info : UnaryServerInfo.t) (handler : UnaryHandler) (s : Process) :
  method_of (UnaryServerInfo.FullMethod info) = "GetVersion" ->
  run (newUnaryInterceptor f ctx req info handler) s
  = run (do aerr <- optionallyCheckAuthenticatedUser f ctx ;
         match aerr with
         | Some err => ret (None, Some err)
         | None => goprom_UnaryServerInterceptor ctx req info handler
         end) s
  /\ (AuthProxyEnabled f = false ->
      run (newUnaryInterceptor f ctx req info handler) s
      = run (goprom_UnaryServerInterceptor ctx req info handler) s)
  /\ (AuthProxyEnabled f = true -> no_forwarded_user ctx ->
      fst (run (newUnaryInterceptor f ctx req info handler) s)
      = (None, Some "unauthorized access to tiller")).
Proof.
  intros Hm. rewrite (unary_exempt f ctx req info handler Hm).
  split; [reflexivity |]. split.
  - intros Hoff. unfold unary_after_version_gate,
      optionallyCheckAuthenticatedUser. rewrite Hoff. run_monad.
    now destruct (goprom_UnaryServerInterceptor ctx req info handler s).
  - intros Hon Hu. unfold unary_after_version_gate, run, bind.
    pose proof (optionallyCheck_unauthorized f ctx s Hon Hu) as Hr.
    unfold run in Hr. now rewrite Hr.
Qed.

(** C4. With enforcement on, a call without a forwarded user (no
    metadata, no header, no value, or an empty first value) is refused
    by the Auth Gate as unauthorized.  The gate takes no method name, so
    this holds for every call: a unary call to the exempt method is
    refused even when its version is incompatible, and so is any unary
    or streaming call the Version Gate lets through.  Setting the
    forwarded-groups header to anything does not change the decision. *)
Theorem auth_gate_rejects_missing_user
    (f : ServerOptsFactory) (ctx : context_Context) (s : Process) :
  AuthProxyEnabled f = true ->
  no_forwarded_user ctx ->
  run (optionallyCheckAuthenticatedUser f ctx) s
  = (Some "unauthorized access to tiller", with_log s (metadata_record ctx))
  /\ (forall req info handler,
         method_of (UnaryServerInfo.FullMethod info) = "GetVersion"
         \/ checkClientVersion ctx = None ->
         run (newUnaryInterceptor f ctx req info handler) s
         = ((None, Some "unauthorized access to tiller"),
            with_log s (metadata_record ctx)))
  /\ (forall srv ss info handler,
         ServerStream.Context ss = ctx ->
         checkClientVersion ctx = None ->
         run (newStreamInterceptor f srv ss info handler) s
         = (Some "unauthorized access to tiller",
            with_log s (metadata_record ctx)))
  /\ (forall md groups,
         metadata_FromIncomingContext ctx = Some md ->
         fst (run (optionallyCheckAuthenticatedUser f
                     {| incoming := Some (<["x-forwarded-groups" := groups]> md) |})
                  s)
         = Some "unauthorized access to tiller").
Proof.
  intros Hon Hu.
  pose proof (optionallyCheck_unauthorized f ctx s Hon Hu) as Hr.
  split; [exact Hr |]. split; [| split].
  - intros req info handler Hpass.
    assert (newUnaryInterceptor f ctx req info handler
            = unary_after_version_gate f ctx req info handler) as ->.
    { destruct Hpass; [now apply unary_exempt | now apply unary_compatible]. }
    unfold unary_after_version_gate, run, bind in *. now rewrite Hr.
  - intros srv ss info handler Hctx Hv. unfold newStreamInterceptor.
    rewrite Hctx, Hv. unfold run, bind in *. now rewrite Hr.
  - intros md groups Hmd.
    rewrite optionallyCheck_unauthorized; [reflexivity | exact Hon |].
    unfold no_forwarded_user in *. simpl. rewrite Hmd in Hu.
    rewrite lookup_insert_ne by discriminate. exact Hu.
Qed.

(** C5. With enforcement off the Auth Gate answers success at once, for
    every context: the answer and the process state (no log line
    written) are the same whatever the metadata holds. *)
Theorem auth_gate_disabled_admits (ctx : context_Context) (s : Process) :
  run (optionallyCheckAuthenticatedUser {| AuthProxyEnabled := false |} ctx) s
  = (None, s).
Proof. apply optionallyCheck_disabled. Qed.

(** C8. Enforcement on, forwarded user ["alice"], forwarded groups
    ["admins|devs"]: the resolved identity is user ["alice"] with
    groups ["admins"] and ["devs"], the fragments of the header value
    around ["|"], and the Auth Gate admits the call, logging the
    identity. *)
Theorem auth_gate_admits_alice
    (f : ServerOptsFactory) (md : MD) (more_users more_groups : list string)
    (s : Process) :
  AuthProxyEnabled f = true ->
  md !! "x-forwarded-user" = Some ("alice" :: more_users) ->
  md !! "x-forwarded-groups" = Some ("admins|devs" :: more_groups) ->
  let ctx := {| incoming := Some md |} in
  fst (run (authenticatedUserFromContext ctx) s)
  = ("alice", strings.Split "admins|devs" "|")
  /\ strings.Split "admins|devs" "|" = ["admins"; "devs"]
  /\ run (optionallyCheckAuthenticatedUser f ctx) s
     = (None,
        with_log s ["Request Metadata: " ++ fmt_MD md;
                    "Authenticated as: user=alice, groups=admins,devs"]).
Proof.
  intros Hon Huser Hgroups ctx.
  unfold optionallyCheckAuthenticatedUser, checkAuthenticatedUser,
    authenticatedUserFromContext. rewrite Hon. simpl.
  rewrite Huser, Hgroups. run_monad.
  repeat split. destruct s; simpl. now rewrite <- app_assoc.
Qed.

(** C9. Running the Version Gate and the Auth Gate a second time, on the
    same context and factory and from the process state the first run
    left behind, gives the same two decisions, errors included. *)
Theorem gates_idempotent
    (f : ServerOptsFactory) (ctx : context_Context) (s : Process) :
  let version1 := checkClientVersion ctx in
  let auth1 := run (optionallyCheckAuthenticatedUser f ctx) s in
  let version2 := checkClientVersion ctx in
  let auth2 := run (optionallyCheckAuthenticatedUser f ctx) (snd auth1) in
  version1 = version2 /\ fst auth1 = fst auth2.
Proof.
  split; [reflexivity | apply auth_decision_stateless].
Qed.

(** C2, as the code has it: a streaming call goes through the Version
    Gate, then the Auth Gate, then the instrumented handler, like a
    unary call, but the method name is never looked at.  The stream
    interceptor is the admission sequence with the exemption off; the
    unary interceptor is the same sequence with the exemption decided
    by the method component.  So a streaming call with an incompatible
    version is refused with the version mismatch whatever its method,
    ["GetVersion"] included. *)
Theorem stream_admission_has_no_exemption
    (f : ServerOptsFactory) (srv : Srv) (ss : ServerStream.t)
    (info : StreamServerInfo.t) (handler : StreamHandler) (s : Process) :
  let ctx := ServerStream.Context ss in
  run (newStreamInterceptor f srv ss info handler) s
  = run (do a <- admission_sequence false f ctx ;
         match a with
         | Rejected e => ret (Some e)
         | Accepted => goprom_StreamServerInterceptor srv ss info handler
         end) s
  /\ (forall req uinfo uhandler,
         run (newUnaryInterceptor f ctx req uinfo uhandler) s
         = run (do a <- admission_sequence
                          (is_exempt (UnaryServerInfo.FullMethod uinfo)) f ctx ;
                match a with
                | Rejected e => ret (None, Some e)
                | Accepted =>
                    goprom_UnaryServerInterceptor ctx req uinfo uhandler
                end) s)
  /\ (version_IsCompatible (versionFromContext ctx) version_GetVersion = false ->
      let mismatch :=
        "incompatible versions client[" ++ versionFromContext ctx
        ++ "] server[" ++ version_GetVersion ++ "]" in
      run (newStreamInterceptor f srv ss info handler) s
      = (Some mismatch, with_log s [mismatch])).
Proof.
  intros ctx. split; [| split].
  - unfold newStreamInterceptor, admission_sequence. fold ctx.
    destruct (checkClientVersion ctx) as [err|]; [reflexivity |].
    unfold run, bind, ret.
    destruct (optionallyCheckAuthenticatedUser f ctx s) as [[e|] s'];
      reflexivity.
  - intros req uinfo uhandler.
    unfold newUnaryInterceptor, admission_sequence, is_exempt, method_of.
    destruct (checkClientVersion ctx) as [err|].
    + destruct (String.eqb _ "GetVersion"); simpl; [| reflexivity].
      unfold run, bind, ret.
      destruct (optionallyCheckAuthenticatedUser f ctx s) as [[e|] s'];
        reflexivity.
    + unfold run, bind, ret.
      destruct (optionallyCheckAuthenticatedUser f ctx s) as [[e|] s'];
        reflexivity.
  - intros Hv mismatch. apply stream_mismatch.
    now apply checkClientVersion_incompatible.
Qed.

End Admission.

(** *** The claims on a concrete server *)
Section Examples.
#[local] Existing Instances Demo.externals Demo.instrumentation.

Lemma splitMethod_three_fragments_witness :
  splitMethod "/Svc/Method" = ("Svc", "Method").
Proof.
  apply (proj1 splitMethod_three_fragments "" "Svc" "Method"); reflexivity.
Defined.

(** ["/Svc/"] has an empty method component and ["x/Svc/Method"] has no
    leading slash, yet neither yields the sentinel. *)
Lemma splitMethod_accepts_other_shapes :
  splitMethod "/Svc/" = ("Svc", "")
  /\ splitMethod "/Svc/" <> ("unknown", "unknown")
  /\ splitMethod "x/Svc/Method" = ("Svc", "Method")
  /\ splitMethod "x/Svc/Method" <> ("unknown", "unknown").
Proof. vm_compute. repeat split; discriminate. Qed.

Lemma unary_version_mismatch_rejected_witness :
  run (newUnaryInterceptor Demo.enforcing
         (Demo.call [("x-helm-api-client", ["v1.0.0"])]) (Demo.request "install")
         {| UnaryServerInfo.FullMethod :=
              "/hapi.services.tiller.ReleaseService/InstallRelease" |}
         Demo.echo) Demo.idle
  = ((None, Some "incompatible versions client[v1.0.0] server[v2.9.0]"),
     Demo.state ["incompatible versions client[v1.0.0] server[v2.9.0]"] O).
Proof.
  apply (unary_version_mismatch_rejected Demo.enforcing
           (Demo.call [("x-helm-api-client", ["v1.0.0"])]) (Demo.request "install")
           {| UnaryServerInfo.FullMethod :=
                "/hapi.services.tiller.ReleaseService/InstallRelease" |}
           Demo.echo Demo.idle).
  - vm_compute. discriminate.
  - vm_compute. reflexivity.
Defined.

Lemma unary_exempt_method_reaches_auth_gate_witness :
  run (newUnaryInterceptor Demo.open_door
         (Demo.call [("x-helm-api-client", ["v1.0.0"])]) (Demo.request "ping")
         {| UnaryServerInfo.FullMethod := Demo.GetVersion_method |}
         Demo.echo) Demo.idle
  = run (goprom_UnaryServerInterceptor
           (Demo.call [("x-helm-api-client", ["v1.0.0"])]) (Demo.request "ping")
           {| UnaryServerInfo.FullMethod := Demo.GetVersion_method |}
           Demo.echo) Demo.idle.
Proof.
  apply (unary_exempt_method_reaches_auth_gate Demo.open_door
           (Demo.call [("x-helm-api-client", ["v1.0.0"])]) (Demo.request "ping")
           {| UnaryServerInfo.FullMethod := Demo.GetVersion_method |}
           Demo.echo Demo.idle).
  - vm_compute. reflexivity.
  - reflexivity.
Defined.

Lemma auth_gate_rejects_missing_user_witness :
  run (optionallyCheckAuthenticatedUser Demo.enforcing
         (Demo.call [("x-forwarded-user", [""]);
                     ("x-forwarded-groups", ["admins"])])) Demo.idle
  = (Some "unauthorized access to tiller",
     with_log Demo.idle
       (metadata_record
          (Demo.call [("x-forwarded-user", [""]);
                      ("x-forwarded-groups", ["admins"])]))).
Proof.
  apply (auth_gate_rejects_missing_user Demo.enforcing
           (Demo.call [("x-forwarded-user", [""]);
                       ("x-forwarded-groups", ["admins"])]) Demo.idle).
  - reflexivity.
  - vm_compute. reflexivity.
Defined.

Lemma auth_gate_admits_alice_witness :
  fst (run (authenticatedUserFromContext
              (Demo.call [("x-forwarded-user", ["alice"]);
                          ("x-forwarded-groups", ["admins|devs"])]))
         Demo.idle)
  = ("alice", ["admins"; "devs"]).
Proof.
  apply (auth_gate_admits_alice Demo.enforcing
           (list_to_map [("x-forwarded-user", ["alice"]);
                         ("x-forwarded-groups", ["admins|devs"])])
           [] [] Demo.idle).
  - reflexivity.
  - vm_compute. reflexivity.
  - vm_compute. reflexivity.
Defined.

Lemma stream_admission_has_no_exemption_witness :
  run (newStreamInterceptor Demo.open_door Demo.server
         {| ServerStream.Context :=
              Demo.call [("x-helm-api-client", ["v1.0.0"])] |}
         {| StreamServerInfo.FullMethod := Demo.GetVersion_method;
            StreamServerInfo.IsClientStream := false;
            StreamServerInfo.IsServerStream := true |}
         Demo.drain) Demo.idle
  = (Some "incompatible versions client[v1.0.0] server[v2.9.0]",
     with_log Demo.idle
       ["incompatible versions client[v1.0.0] server[v2.9.0]"]).
Proof.
  apply (stream_admission_has_no_exemption Demo.open_door Demo.server
           {| ServerStream.Context :=
                Demo.call [("x-helm-api-client", ["v1.0.0"])] |}
           {| StreamServerInfo.FullMethod := Demo.GetVersion_method;
              StreamServerInfo.IsClientStream := false;
              StreamServerInfo.IsServerStream := true |}
           Demo.drain Demo.idle).
  vm_compute. reflexivity.
Defined.

(** A streaming call to the exempt method with an incompatible client
    version is refused, where the unary call with the same method,
    metadata and factory reaches its handler. *)
Lemma stream_rejects_exempt_method :
  let ctx := Demo.call [("x-helm-api-client", ["v1.0.0"])] in
  is_exempt Demo.GetVersion_method = true
  /\ version_IsCompatible (versionFromContext ctx) version_GetVersion = false
  /\ run (newStreamInterceptor Demo.open_door Demo.server
            {| ServerStream.Context := ctx |}
            {| StreamServerInfo.FullMethod := Demo.GetVersion_method;
               StreamServerInfo.IsClientStream := false;
               StreamServerInfo.IsServerStream := true |}
            Demo.drain) Demo.idle
     = (Some "incompatible versions client[v1.0.0] server[v2.9.0]",
        Demo.state ["incompatible versions client[v1.0.0] server[v2.9.0]"] O)
  /\ run (newUnaryInterceptor Demo.open_door ctx (Demo.request "ping")
            {| UnaryServerInfo.FullMethod := Demo.GetVersion_method |}
            Demo.echo) Demo.idle
     = ((Demo.reply "ping", None), Demo.state [] 1).
Proof. vm_compute. repeat split. Qed.

End Examples.

End TillerFacts.

(** ** The [helm lint] command *)
Module LintFacts.
Import strings Lint.

Section Run.
Context `{Engine}.

Lemma wrap_int_small (z : Z) : - 2 ^ 63 <= z < 2 ^ 63 -> wrap_int z = z.
Proof. intros Hz. unfold wrap_int. rewrite Z.mod_small; lia. Qed.

Lemma error_eqb_sentinel (err : error) :
  error_eqb err errLintNoChart = true <-> err = errLintNoChart.
Proof. destruct err; simpl; split; congruence. Qed.

Lemma other_error_counts (tol : Z) (counts : Z * Z)
    (r : Linter * option error) :
  other_error r -> count_path tol counts r = counts.
Proof.
  intros (err & Hr & Hne). unfold count_path, path_linted, path_fails.
  rewrite Hr. destruct err; [contradiction |]. now destruct counts.
Qed.

(** *** What the loop writes and counts *)

Lemma print_messages_run (msgs : list Message) (s : Process) :
  print_messages msgs s
  = (tt, {| fs := fs s;
            written := written s ++ map Stdout (map Message_Error msgs) |}).
Proof.
  revert s. induction msgs as [|msg msgs IH]; intros s; simpl.
  - unfold ret. destruct s; simpl. now rewrite app_nil_r.
  - unfold bind, fmt_Println, emit. rewrite IH. simpl.
    now rewrite <- app_assoc.
Qed.

(** One iteration: the counters move as [count_path] says, the file
    system is the one [lintChart] leaves, and only standard output is
    written to. *)
Lemma lint_path_run (l : lintCmd) (rvals : list Byte.byte) (tol : Z)
    (path : string) (total failures : Z) (s : Process) :
  exists lines,
    lint_path l rvals tol path total failures s
    = (count_path tol (total, failures)
         (fst (lintChart path rvals (namespace l) (strict l) (fs s))),
       {| fs := snd (lintChart path rvals (namespace l) (strict l) (fs s));
          written := written s ++ map Stdout lines |}).
Proof.
  unfold lint_path, bind, on_fs.
  destruct (lintChart path rvals (namespace l) (strict l) (fs s))
    as [[linter [err|]] disk']; simpl.
  - exists ["==> Skipping " ++ path; Error err; ""].
    unfold count_path, path_linted, path_fails, fmt_Println, emit, ret; simpl.
    now rewrite <- !app_assoc.
  - exists (("==> Linting " ++ path)%string
            :: ((if (length (Messages linter) =? 0)%nat then ["Lint OK"] else [])
                ++ map Message_Error (Messages linter) ++ [""])%list).
    unfold count_path, path_linted, path_fails, fmt_Println, emit, ret; simpl.
    destruct (length (Messages linter) =? 0)%nat; simpl;
      rewrite print_messages_run; simpl;
      rewrite ?map_app, <- ?app_assoc; reflexivity.
Qed.

Lemma lint_paths_run (l : lintCmd) (rvals : list Byte.byte) (tol : Z)
    (paths : list string) :
  forall (total failures : Z) (s : Process),
  exists disk' lines,
    lint_paths l rvals tol paths total failures s
    = (fold_left (count_path tol) (lint_each l rvals paths (fs s))
         (total, failures),
       {| fs := disk'; written := written s ++ map Stdout lines |}).
Proof.
  induction paths as [|path rest IH]; intros total failures s.
  - exists (fs s), []. simpl. unfold ret. destruct s; simpl.
    now rewrite app_nil_r.
  - destruct (lint_path_run l rvals tol path total failures s) as [lines Hp].
    cbn [lint_paths lint_each]. unfold bind. rewrite Hp.
    destruct (lintChart path rvals (namespace l) (strict l) (fs s))
      as [r disk1].
    cbn [fst snd fold_left].
    destruct (count_path tol (total, failures) r) as [t f] eqn:Ec.
    cbn [fst snd].
    destruct (IH t f {| fs := disk1; written := written s ++ map Stdout lines |})
      as (disk' & lines' & Hr).
    exists disk', (lines ++ lines')%list. rewrite Hr. cbn [fs written].
    now rewrite map_app, <- app_assoc.
Qed.

Lemma length_lint_each (l : lintCmd) (rvals : list Byte.byte)
    (paths : list string) :
  forall disk, length (lint_each l rvals paths disk) = length paths.
Proof.
  induction paths as [|path rest IH]; intros disk; simpl; [reflexivity |].
  destruct (lintChart path rvals (namespace l) (strict l) disk).
  simpl. now rewrite IH.
Qed.

(** While the counters stay below [2^63] nothing wraps: they count the
    linted and the failed paths. *)
Lemma fold_count_path (tol : Z) (results : list (Linter * option error)) :
  forall total failures : Z,
    0 <= total -> 0 <= failures ->
    total + Z.of_nat (length results) < 2 ^ 63 ->
    failures + Z.of_nat (length results) < 2 ^ 63 ->
    fold_left (count_path tol) results (total, failures)
    = (total + Z.of_nat (length (List.filter path_linted results)),
       failures + Z.of_nat (length (List.filter (path_fails tol) results))).
Proof.
  induction results as [|r results IH]; intros total failures Ht Hf Htb Hfb.
  - simpl. f_equal; lia.
  - cbn [fold_left length List.filter] in *.
    unfold count_path at 2. cbn [fst snd].
    unfold int_add.
    rewrite !wrap_int_small by lia.
    destruct (path_linted r), (path_fails tol r);
      rewrite IH by lia; cbn [length]; f_equal; lia.
Qed.

Lemma filter_positive {A} (p : A -> bool) (xs : list A) :
  0 < Z.of_nat (length (List.filter p xs)) <-> Exists (fun x => p x = true) xs.
Proof.
  induction xs as [|x xs IH].
  - simpl. split; [lia | intros E; inversion E].
  - cbn [List.filter]. destruct (p x) eqn:E.
    + split; [intros _; now constructor | intros _; simpl; lia].
    + rewrite IH. split; [now constructor 2 |].
      intros Hex. inversion Hex; subst; [congruence | assumption].
Qed.

(** *** [lintChart] *)

Lemma lint_dir_no_chart (chartPath : string) (rvals : list Byte.byte)
    (ns : string) (st : bool) (disk : FS) :
  snd (fst (lint_dir chartPath rvals ns st disk)) = Some errLintNoChart
  <-> os_Stat (filepath_Join chartPath "Chart.yaml") disk = false.
Proof.
  unfold lint_dir.
  destruct (os_Stat (filepath_Join chartPath "Chart.yaml") disk).
  - destruct (lint_All chartPath rvals ns st disk). simpl.
    split; discriminate.
  - simpl. split; reflexivity.
Qed.

Lemma lintChart_directory (path : string) (rvals : list Byte.byte)
    (ns : string) (st : bool) :
  HasSuffix path ".tgz" = false ->
  lintChart path rvals ns st = lint_dir path rvals ns st.
Proof. intros Hs. unfold lintChart. now rewrite Hs. Qed.

(** An archive that does not expand. *)
Lemma lintChart_expand_fails (path : string) (rvals : list Byte.byte)
    (ns : string) (st : bool) (disk d1 d2 d3 : FS)
    (tmp : string) (file : File) (msg : string) :
  HasSuffix path ".tgz" = true ->
  ioutil_TempDir "" "helm-lint" disk = (inl tmp, d1) ->
  os_Open path d1 = (inl file, d2) ->
  chartutil_Expand tmp file d2 = (Some msg, d3) ->
  fst (lintChart path rvals ns st disk)
  = (Linter_zero, Some (errorString msg)).
Proof.
  intros Hs Ht Ho He. unfold lintChart, bind, ret.
  rewrite Hs, Ht, Ho, He.
  destruct (os_Close file d3) as [[] d4].
  now destruct (os_RemoveAll tmp d4) as [[] d5].
Qed.

(** An archive, expanded all right, whose base name has no ["-"] after
    its first byte. *)
Lemma lintChart_missing_hyphen (path : string) (rvals : list Byte.byte)
    (ns : string) (st : bool) (disk d1 d2 d3 : FS)
    (tmp : string) (file : File) :
  HasSuffix path ".tgz" = true ->
  ioutil_TempDir "" "helm-lint" disk = (inl tmp, d1) ->
  os_Open path d1 = (inl file, d2) ->
  chartutil_Expand tmp file d2 = (None, d3) ->
  strings.LastIndex (filepath_Base path) "-" <= 0 ->
  fst (lintChart path rvals ns st disk)
  = (Linter_zero,
     Some (errorString ("unable to parse chart archive "
                        ++ fmt_q (filepath_Base path) ++ ", missing '-'"))).
Proof.
  intros Hs Ht Ho He Hi. unfold lintChart, bind, ret.
  rewrite Hs, Ht, Ho, He.
  destruct (Z.leb_spec (strings.LastIndex (filepath_Base path) "-") 0);
    [| lia].
  destruct (os_Close file d3) as [[] d4].
  now destruct (os_RemoveAll tmp d4) as [[] d5].
Qed.

(** [lint_dir] gives the zero linter with [errLintNoChart], or what the
    engine says of a directory that holds a [Chart.yaml]. *)
Lemma lint_dir_shapes (chartPath : string) (rvals : list Byte.byte)
    (ns : string) (st : bool) (disk : FS) :
  (os_Stat (filepath_Join chartPath "Chart.yaml") disk = false
   /\ lint_dir chartPath rvals ns st disk
      = ((Linter_zero, Some errLintNoChart), disk))
  \/ (os_Stat (filepath_Join chartPath "Chart.yaml") disk = true
      /\ lint_dir chartPath rvals ns st disk
         = ((fst (lint_All chartPath rvals ns st disk), None),
            snd (lint_All chartPath rvals ns st disk))).
Proof.
  unfold lint_dir.
  destruct (os_Stat (filepath_Join chartPath "Chart.yaml") disk); [right | left].
  - split; [reflexivity |]. now destruct (lint_All chartPath rvals ns st disk).
  - split; reflexivity.
Qed.

(** An archive that expands and passes the hyphen check is linted in the
    directory named by its base name up to the last hyphen, under the
    temporary directory; then the file is closed and the temporary
    directory removed. *)
Lemma lintChart_archive (path : string) (rvals : list Byte.byte)
    (ns : string) (st : bool) (d0 d1 d2 d3 : FS) (tmp : string) (file : File) :
  HasSuffix path ".tgz" = true ->
  ioutil_TempDir "" "helm-lint" d0 = (inl tmp, d1) ->
  os_Open path d1 = (inl file, d2) ->
  chartutil_Expand tmp file d2 = (None, d3) ->
  0 < LastIndex (filepath_Base path) "-" ->
  let dir :=
    filepath_Join tmp
      (String.substring 0 (Z.to_nat (LastIndex (filepath_Base path) "-"))
         (filepath_Base path)) in
  lintChart path rvals ns st d0
  = (fst (lint_dir dir rvals ns st d3),
     snd (os_RemoveAll tmp
            (snd (os_Close file (snd (lint_dir dir rvals ns st d3)))))).
Proof.
  intros Hs Ht Ho He Hi dir. unfold lintChart, bind, ret.
  rewrite Hs, Ht, Ho, He.
  destruct (Z.leb_spec (LastIndex (filepath_Base path) "-") 0); [lia |].
  fold dir. destruct (lint_dir dir rvals ns st d3) as [r d4]. simpl.
  destruct (os_Close file d4) as [[] d5]. simpl.
  now destruct (os_RemoveAll tmp d5) as [[] d6].
Qed.

(** Where [errLintNoChart] comes from: the manifest guard, on the path
    itself for a directory, on the chart directory under the temporary
    directory for an archive that expanded and has its hyphen. *)
Lemma lintChart_no_chart_cases (path : string) (rvals : list Byte.byte)
    (ns : string) (st : bool) (disk : FS) :
  snd (fst (lintChart path rvals ns st disk)) = Some errLintNoChart ->
  (HasSuffix path ".tgz" = false
   /\ os_Stat (filepath_Join path "Chart.yaml") disk = false)
  \/ (HasSuffix path ".tgz" = true
      /\ exists tmp d1 file d2 d3,
           ioutil_TempDir "" "helm-lint" disk = (inl tmp, d1)
           /\ os_Open path d1 = (inl file, d2)
           /\ chartutil_Expand tmp file d2 = (None, d3)
           /\ 0 < LastIndex (filepath_Base path) "-"
           /\ os_Stat (filepath_Join (archive_chart_path tmp path) "Chart.yaml")
                d3 = false).
Proof.
  destruct (HasSuffix path ".tgz") eqn:Hs.
  - intros Hn. right. split; [reflexivity |].
    revert Hn. unfold lintChart, bind, ret. rewrite Hs.
    destruct (ioutil_TempDir "" "helm-lint" disk) as [[tmp|msg] d1] eqn:Ht;
      [| discriminate].
    destruct (os_Open path d1) as [[file|msg] d2] eqn:Ho.
    + destruct (chartutil_Expand tmp file d2) as [[msg|] d3] eqn:He.
      * destruct (os_Close file d3) as [[] d4].
        destruct (os_RemoveAll tmp d4) as [[] d5]. discriminate.
      * destruct (Z.leb_spec (LastIndex (filepath_Base path) "-") 0)
          as [Hle|Hpos].
        -- destruct (os_Close file d3) as [[] d4].
           destruct (os_RemoveAll tmp d4) as [[] d5]. discriminate.
        -- fold (archive_chart_path tmp path).
           destruct (lint_dir (archive_chart_path tmp path) rvals ns st d3)
             as [r d3'] eqn:El.
           destruct (os_Close file d3') as [[] d4].
           destruct (os_RemoveAll tmp d4) as [[] d5]. simpl. intros Hn.
           exists tmp, d1, file, d2, d3.
           split; [first [reflexivity | exact Ht] |].
           split; [first [reflexivity | exact Ho] |].
           split; [first [reflexivity | exact He] |].
           split; [exact Hpos |].
           eapply lint_dir_no_chart. rewrite El. exact Hn.
    + destruct (os_RemoveAll tmp d2) as [[] d5]. discriminate.
  - intros Hn. left. split; [reflexivity |].
    rewrite (lintChart_directory path rvals ns st Hs) in Hn.
    eapply lint_dir_no_chart. exact Hn.
Qed.

(** For an archive that expanded and has its hyphen, [errLintNoChart]
    says that its chart directory has no [Chart.yaml]. *)
Lemma lintChart_archive_no_chart (path : string) (rvals : list Byte.byte)
    (ns : string) (st : bool) (d0 d1 d2 d3 : FS) (tmp : string) (file : File) :
  HasSuffix path ".tgz" = true ->
  ioutil_TempDir "" "helm-lint" d0 = (inl tmp, d1) ->
  os_Open path d1 = (inl file, d2) ->
  chartutil_Expand tmp file d2 = (None, d3) ->
  0 < LastIndex (filepath_Base path) "-" ->
  snd (fst (lintChart path rvals ns st d0)) = Some errLintNoChart
  <-> os_Stat (filepath_Join (archive_chart_path tmp path) "Chart.yaml") d3
      = false.
Proof.
  intros Hs Ht Ho He Hi.
  rewrite (lintChart_archive path rvals ns st d0 d1 d2 d3 tmp file
             Hs Ht Ho He Hi).
  cbn [fst]. apply lint_dir_no_chart.
Qed.

Lemma path_fails_iff (l : lintCmd) (r : Linter * option error) :
  path_fails (tolerance l) r = true
  <-> snd r = Some errLintNoChart
      \/ (snd r = None
          /\ (if strict l then support_WarningSev else support_ErrorSev)
             <= HighestSeverity (fst r)).
Proof.
  unfold path_fails, tolerance. destruct (snd r) as [err|].
  - rewrite error_eqb_sentinel. split.
    + intros ->. now left.
    + intros [E | [E _]]; congruence.
  - rewrite Z.leb_le. split.
    + intros Hle. right. now split.
    + intros [E | [_ Hle]]; [discriminate | exact Hle].
Qed.

(** [run] once the values are loaded. *)
Lemma run_loaded (l : lintCmd) (s : Process) (rvals : list Byte.byte)
    (disk : FS) :
  vals (valueFiles l) (values l) (sValues l) (fValues l)
       (certFile l) (keyFile l) (caFile l) (fs s) = (inl rvals, disk) ->
  exists disk' lines,
    let counts :=
      fold_left (count_path (tolerance l))
        (lint_each l rvals (paths l) disk) (0, 0) in
    run l s
    = if 0 <? snd counts
      then (Some (errorString
                    ((fmt_d (fst counts) ++ " chart(s) linted") ++ ", "
                     ++ fmt_d (snd counts) ++ " chart(s) failed")),
            {| fs := disk'; written := written s ++ map Stdout lines |})
      else (None,
            {| fs := disk';
               written := (written s ++ map Stdout lines)
                          ++ [Out ((fmt_d (fst counts) ++ " chart(s) linted")
                                   ++ ", no failures" ++ nl)] |}).
Proof.
  intros Hv. unfold run. unfold bind at 1. unfold on_fs. rewrite Hv.
  destruct (lint_paths_run l rvals (tolerance l) (paths l) 0 0
              {| fs := disk; written := written s |})
    as (disk' & lines & Hr).
  exists disk', lines. cbn zeta. unfold bind at 1. unfold tolerance in *.
  rewrite Hr. cbn [fs written].
  destruct (fold_left _ _ (0, 0)) as [total failures]. cbn [fst snd].
  destruct (0 <? failures); [reflexivity |].
  unfold bind, emit, ret. reflexivity.
Qed.

(** *** The claims *)

(** C7, as the code has it.  If the values given on the command line
    fail to load, [run] returns that error before it lints any path:
    nothing is written and the file system is as the loading left it.
    Otherwise [run] returns an error exactly when at least one path
    fails; a path fails when no chart was found for it
    ([errLintNoChart]) or when its chart was linted and the highest
    severity reaches the tolerance, which is the warning level under
    [--strict] and the error level otherwise.  [errLintNoChart] is given
    exactly when the [Chart.yaml] of the path is missing: for a
    directory, [path/Chart.yaml]; for an archive that expanded,
    [Chart.yaml] in its chart directory under the temporary directory;
    and it is given by nothing else.  The number of paths fits an
    [int], as the length of every Go slice does, so the counters do not
    wrap. *)
Theorem run_fails_iff_a_path_fails (l : lintCmd) (s : Process) :
  Z.of_nat (length (paths l)) < 2 ^ 63 ->
  match vals (valueFiles l) (values l) (sValues l) (fValues l)
             (certFile l) (keyFile l) (caFile l) (fs s) with
  | (inr err, disk) =>
      run l s = (Some err, {| fs := disk; written := written s |})
  | (inl rvals, disk) =>
      fst (run l s) <> None
      <-> Exists (fun r => path_fails (tolerance l) r = true)
                 (lint_each l rvals (paths l) disk)
  end
  /\ (forall r,
         path_fails (tolerance l) r = true
         <-> snd r = Some errLintNoChart
             \/ (snd r = None
                 /\ (if strict l then support_WarningSev else support_ErrorSev)
                    <= HighestSeverity (fst r)))
  /\ (forall path rvals disk,
         HasSuffix path ".tgz" = false ->
         snd (fst (lintChart path rvals (namespace l) (strict l) disk))
         = Some errLintNoChart
         <-> os_Stat (filepath_Join path "Chart.yaml") disk = false)
  /\ (forall path rvals disk tmp d1 file d2 d3,
         HasSuffix path ".tgz" = true ->
         ioutil_TempDir "" "helm-lint" disk = (inl tmp, d1) ->
         os_Open path d1 = (inl file, d2) ->
         chartutil_Expand tmp file d2 = (None, d3) ->
         0 < LastIndex (filepath_Base path) "-" ->
         snd (fst (lintChart path rvals (namespace l) (strict l) disk))
         = Some errLintNoChart
         <-> os_Stat (filepath_Join (archive_chart_path tmp path) "Chart.yaml")
               d3 = false)
  /\ (forall path rvals disk,
         snd (fst (lintChart path rvals (namespace l) (strict l) disk))
         = Some errLintNoChart ->
         (HasSuffix path ".tgz" = false
          /\ os_Stat (filepath_Join path "Chart.yaml") disk = false)
         \/ (HasSuffix path ".tgz" = true
             /\ exists tmp d1 file d2 d3,
                  ioutil_TempDir "" "helm-lint" disk = (inl tmp, d1)
                  /\ os_Open path d1 = (inl file, d2)
                  /\ chartutil_Expand tmp file d2 = (None, d3)
                  /\ 0 < LastIndex (filepath_Base path) "-"
                  /\ os_Stat (filepath_Join (archive_chart_path tmp path)
                                "Chart.yaml") d3 = false)).
Proof.
  intros Hlen. split; [| split; [| split; [| split]]].
  - destruct (vals _ _ _ _ _ _ _ (fs s)) as [[rvals|err] disk] eqn:Hv.
    + destruct (run_loaded l s rvals disk Hv) as (disk' & lines & Hr).
      cbn zeta in Hr. rewrite Hr. clear Hr.
      rewrite fold_count_path;
        rewrite ?length_lint_each; try lia.
      cbn [fst snd]. rewrite Z.add_0_l.
      rewrite <- filter_positive.
      destruct (Z.ltb_spec 0
                  (Z.of_nat (length (List.filter (path_fails (tolerance l))
                                       (lint_each l rvals (paths l) disk)))));
        cbn [fst]; split; intros; try congruence; try lia.
    + unfold run. unfold bind at 1. unfold on_fs. now rewrite Hv.
  - apply path_fails_iff.
  - intros path rvals disk Hs. rewrite (lintChart_directory _ _ _ _ Hs).
    apply lint_dir_no_chart.
  - intros path rvals disk tmp d1 file d2 d3.
    apply lintChart_archive_no_chart.
  - intros path rvals disk. apply lintChart_no_chart_cases.
Qed.

(** C10. A path for which [lintChart] gives an error other than
    [errLintNoChart] leaves both counters as they were.  Such errors
    are, for example, the one for an archive that does not expand and
    the one for an expanded archive whose base name has no hyphen past
    its first byte.  A run that gets to its paths (the values loaded)
    and whose paths all fail that way returns no error and writes
    ["0 chart(s) linted, no failures"] to its output, after the lines on
    standard output. *)
Theorem other_errors_are_skipped (l : lintCmd) (s : Process)
    (rvals : list Byte.byte) (disk : FS) :
  vals (valueFiles l) (values l) (sValues l) (fValues l)
       (certFile l) (keyFile l) (caFile l) (fs s) = (inl rvals, disk) ->
  Forall other_error (lint_each l rvals (paths l) disk) ->
  (exists disk' lines,
      run l s
      = (None,
         {| fs := disk';
            written := (written s ++ map Stdout lines)
                       ++ [Out ("0 chart(s) linted, no failures" ++ nl)] |}))
  /\ (forall path total failures s0,
         other_error
           (fst (lintChart path rvals (namespace l) (strict l) (fs s0))) ->
         fst (lint_path l rvals (tolerance l) path total failures s0)
         = (total, failures))
  /\ (forall path d0 d1 d2 d3 tmp file msg,
         HasSuffix path ".tgz" = true ->
         ioutil_TempDir "" "helm-lint" d0 = (inl tmp, d1) ->
         os_Open path d1 = (inl file, d2) ->
         chartutil_Expand tmp file d2 = (Some msg, d3) ->
         other_error (fst (lintChart path rvals (namespace l) (strict l) d0)))
  /\ (forall path d0 d1 d2 d3 tmp file,
         HasSuffix path ".tgz" = true ->
         ioutil_TempDir "" "helm-lint" d0 = (inl tmp, d1) ->
         os_Open path d1 = (inl file, d2) ->
         chartutil_Expand tmp file d2 = (None, d3) ->
         strings.LastIndex (filepath_Base path) "-" <= 0 ->
         other_error (fst (lintChart path rvals (namespace l) (strict l) d0))).
Proof.
  intros Hv Hall. split; [| split; [| split]].
  - destruct (run_loaded l s rvals disk Hv) as (disk' & lines & Hr).
    exists disk', lines. cbn zeta in Hr. rewrite Hr. clear Hr.
    assert (fold_left (count_path (tolerance l))
              (lint_each l rvals (paths l) disk) (0, 0) = (0, 0)) as ->.
    { induction Hall as [|r rs Hr _ IH]; [reflexivity |].
      cbn [fold_left]. now rewrite (other_error_counts _ _ _ Hr). }
    reflexivity.
  - intros path total failures s0 Ho.
    destruct (lint_path_run l rvals (tolerance l) path total failures s0)
      as [lines Hp].
    rewrite Hp. cbn [fst]. now apply other_error_counts.
  - intros path d0 d1 d2 d3 tmp file msg Hs Ht Hop He.
    rewrite (lintChart_expand_fails _ _ _ _ _ _ _ _ _ _ _ Hs Ht Hop He).
    eexists. split; [reflexivity | discriminate].
  - intros path d0 d1 d2 d3 tmp file Hs Ht Hop He Hi.
    rewrite (lintChart_missing_hyphen _ _ _ _ _ _ _ _ _ _ Hs Ht Hop He Hi).
    eexists. split; [reflexivity | discriminate].
Qed.

End Run.

(** *** The claims on a concrete file system *)
Section Examples.
#[local] Existing Instances Demo.externals Demo.engine.

(** [good] is a clean chart and [missing] is not there: one path
    fails, and the command fails. *)
Lemma run_fails_iff_a_path_fails_witness :
  fst (run (Demo.command false [] ["good"; "missing"]) Demo.start) <> None.
Proof.
  assert (Hlen : Z.of_nat (length (paths (Demo.command false [] ["good"; "missing"])))
                 < 2 ^ 63) by (vm_compute; reflexivity).
  destruct (run_fails_iff_a_path_fails
              (Demo.command false [] ["good"; "missing"]) Demo.start Hlen)
    as [Hiff _].
  apply Hiff. apply Exists_cons_tl, Exists_cons_hd. vm_compute. reflexivity.
Defined.

(** The values file is not there: the command fails although its one
    path, a clean chart, fails under no values whatever. *)
Lemma run_fails_though_no_path_fails :
  let l := Demo.command false ["values.yaml"] ["good"] in
  fst (run l Demo.start)
  = Some (errorString "open values.yaml: no such file or directory")
  /\ fst (run l Demo.start) <> None
  /\ forall rvals,
       ~ Exists (fun r => path_fails (tolerance l) r = true)
           (lint_each l rvals (paths l) Demo.disk).
Proof.
  split; [vm_compute; reflexivity |]. split; [vm_compute; discriminate |].
  intros rvals Hex. vm_compute in Hex.
  inversion Hex as [r rs Hr | r rs Hrs]; subst; [discriminate | inversion Hrs].
Qed.

(** An archive without a hyphen and an archive that does not expand:
    both are skipped, nothing is counted, the command succeeds. *)
Lemma other_errors_are_skipped_witness :
  exists disk' lines,
    run (Demo.command false [] ["nohyphen.tgz"; "corrupt-1.0.0.tgz"])
      Demo.start
    = (None,
       {| fs := disk';
          written := (written Demo.start ++ map Stdout lines)
                     ++ [Out ("0 chart(s) linted, no failures" ++ nl)] |}).
Proof.
  apply (other_errors_are_skipped
           (Demo.command false [] ["nohyphen.tgz"; "corrupt-1.0.0.tgz"])
           Demo.start [] Demo.disk).
  - vm_compute. reflexivity.
  - vm_compute.
    repeat (constructor;
            [eexists; split; [reflexivity | intro; discriminate] |]).
    constructor.
Defined.

End Examples.

End LintFacts.

(** ** More on the admission interceptors *)
Module TillerMore.
Import strings stringsFacts Tiller TillerFacts.

Section Gates.
Context `{Instrumentation}.

Lemma with_log_nil (s : Process) : with_log s [] = s.
Proof. destruct s. unfold with_log. simpl. now rewrite app_nil_r. Qed.

Lemma with_log_app (s : Process) (xs ys : list string) :
  with_log (with_log s xs) ys = with_log s (xs ++ ys).
Proof. unfold with_log. simpl. now rewrite <- app_assoc. Qed.

(** The first value of the forwarded-user header, when there is one. *)
Lemma checkAuthenticatedUser_user (md : MD) (u : string) (more : list string)
    (s : Process) :
  md !! "x-forwarded-user" = Some (u :: more) ->
  u <> "" ->
  run (checkAuthenticatedUser {| incoming := Some md |}) s
  = (None,
     with_log s
       ["Request Metadata: " ++ fmt_MD md;
        "Authenticated as: user=" ++ u ++ ", groups="
        ++ strings.Join
             (snd (fst (run (authenticatedUserFromContext
                               {| incoming := Some md |}) s))) ","]).
Proof.
  intros Hu Hne.
  unfold checkAuthenticatedUser, authenticatedUserFromContext. simpl.
  rewrite Hu. unfold run, bind, ret, log_line, with_log. simpl.
  destruct (String.eqb_spec u "") as [E|E]; [contradiction |].
  simpl. now rewrite <- app_assoc.
Qed.

(** The Auth Gate answers [nil] or [Unauthorized], and writes at most two
    log lines. *)
Lemma auth_gate_run (f : ServerOptsFactory) (ctx : context_Context)
    (s : Process) :
  exists lines,
    (length lines <= 2)%nat
    /\ snd (run (optionallyCheckAuthenticatedUser f ctx) s) = with_log s lines
    /\ (fst (run (optionallyCheckAuthenticatedUser f ctx) s) = None
        \/ fst (run (optionallyCheckAuthenticatedUser f ctx) s)
           = Some Unauthorized).
Proof.
  unfold optionallyCheckAuthenticatedUser. destruct (AuthProxyEnabled f).
  - destruct ctx as [[md|]].
    + destruct (md !! "x-forwarded-user") as [[|u more]|] eqn:Hu.
      * exists (metadata_record {| incoming := Some md |}).
        rewrite checkAuthenticatedUser_unauthorized
          by (unfold no_forwarded_user; simpl; now rewrite Hu).
        simpl. auto.
      * destruct (String.eqb_spec u "") as [E|E].
        -- exists (metadata_record {| incoming := Some md |}).
           rewrite checkAuthenticatedUser_unauthorized
             by (unfold no_forwarded_user; simpl; now rewrite Hu).
           simpl. auto.
        -- eexists. rewrite (checkAuthenticatedUser_user md u more s Hu E).
           simpl. split; [| split; [reflexivity | now left]]. simpl. lia.
      * exists (metadata_record {| incoming := Some md |}).
        rewrite checkAuthenticatedUser_unauthorized
          by (unfold no_forwarded_user; simpl; now rewrite Hu).
        simpl. auto.
    + exists []. rewrite checkAuthenticatedUser_unauthorized by exact I.
      simpl. auto.
  - exists []. unfold run, ret. simpl. rewrite with_log_nil. auto.
Qed.

(** The method component is ["GetVersion"] exactly for the names of the
    shape [pre/svc/GetVersion], with no slash in [pre] and [svc]. *)
Lemma is_exempt_iff_shape (fullMethod : string) :
  is_exempt fullMethod = true
  <-> exists pre svc,
        Count pre "/" = O /\ Count svc "/" = O
        /\ fullMethod = pre ++ "/" ++ svc ++ "/GetVersion".
Proof.
  unfold is_exempt, method_of. rewrite String.eqb_eq. split.
  - intros Hm. destruct (Nat.eq_dec (Count fullMethod "/") 2%nat) as [E|E].
    + destruct (two_slashes_inv fullMethod E)
        as (pre & svc & m & -> & Hp & Hs & Hm0).
      rewrite (splitMethod_fragments pre svc m Hp Hs Hm0) in Hm.
      simpl in Hm. subst m. exists pre, svc. auto.
    + rewrite (splitMethod_unknown fullMethod E) in Hm. discriminate.
  - intros (pre & svc & Hp & Hs & ->).
    change (pre ++ "/" ++ svc ++ "/GetVersion")
      with (pre ++ "/" ++ svc ++ "/" ++ "GetVersion").
    now rewrite (splitMethod_fragments pre svc "GetVersion" Hp Hs eq_refl).
Qed.

(** X1. Which unary calls the version check spares.  For a client
    version the compatibility predicate refuses: if the full method name
    has the shape [pre/svc/GetVersion], with no slash in [pre] and [svc],
    the interceptor goes on as if the version were fine, to the Auth Gate
    and then the instrumented handler, with no log line for the
    mismatch; the service component and what stands before the first
    slash do not matter.  For every other name the call is refused with
    the version mismatch, logged once. *)
Theorem unary_exemption_by_method_shape
    (f : ServerOptsFactory) (ctx : context_Context) (req : Req)
    (info : UnaryServerInfo.t) (handler : UnaryHandler) (s : Process) :
  version_IsCompatible (versionFromContext ctx) version_GetVersion = false ->
  ((exists pre svc,
       Count pre "/" = O /\ Count svc "/" = O
       /\ UnaryServerInfo.FullMethod info = pre ++ "/" ++ svc ++ "/GetVersion") ->
   run (newUnaryInterceptor f ctx req info handler) s
   = run (do aerr <- optionallyCheckAuthenticatedUser f ctx ;
          match aerr with
          | Some err => ret (None, Some err)
          | None => goprom_UnaryServerInterceptor ctx req info handler
          end) s)
  /\ (~ (exists pre svc,
            Count pre "/" = O /\ Count svc "/" = O
            /\ UnaryServerInfo.FullMethod info
               = pre ++ "/" ++ svc ++ "/GetVersion") ->
      run (newUnaryInterceptor f ctx req info handler) s
      = ((None, Some (VersionMismatch ctx)), with_log s [VersionMismatch ctx])).
Proof.
  intros Hv. split.
  - intros Hshape.
    apply (is_exempt_iff_shape (UnaryServerInfo.FullMethod info)) in Hshape.
    unfold is_exempt in Hshape. apply String.eqb_eq in Hshape.
    now rewrite (unary_exempt f ctx req info handler Hshape).
  - intros Hno. apply unary_mismatch.
    + intros Hm. apply Hno.
      apply (is_exempt_iff_shape (UnaryServerInfo.FullMethod info)).
      unfold is_exempt. now apply String.eqb_eq.
    + now apply checkClientVersion_incompatible.
Qed.

(** X2. The exemption fails closed: a unary call whose full method name
    does not hold exactly two slashes (["GetVersion"] alone, or
    ["/a/b/GetVersion"]) is refused with the version mismatch when its
    version is incompatible. *)
Theorem malformed_method_is_not_exempt
    (f : ServerOptsFactory) (ctx : context_Context) (req : Req)
    (info : UnaryServerInfo.t) (handler : UnaryHandler) (s : Process) :
  Count (UnaryServerInfo.FullMethod info) "/" <> 2%nat ->
  version_IsCompatible (versionFromContext ctx) version_GetVersion = false ->
  run (newUnaryInterceptor f ctx req info handler) s
  = ((None, Some (VersionMismatch ctx)), with_log s [VersionMismatch ctx]).
Proof.
  intros Hc Hv. apply unary_mismatch.
  - unfold method_of. rewrite (splitMethod_unknown _ Hc). discriminate.
  - now apply checkClientVersion_incompatible.
Qed.

(** X3. With enforcement on, the Auth Gate lets a call through exactly
    when the call has metadata whose forwarded-user header has a
    non-empty first value; later values of the header are not looked at.
    When it refuses, the error is the unauthorized one. *)
Theorem auth_gate_admits_iff_first_user_value
    (f : ServerOptsFactory) (ctx : context_Context) (s : Process) :
  AuthProxyEnabled f = true ->
  (fst (run (optionallyCheckAuthenticatedUser f ctx) s) = None
   <-> exists md u more,
         metadata_FromIncomingContext ctx = Some md
         /\ md !! "x-forwarded-user" = Some (u :: more)
         /\ u <> "")
  /\ (fst (run (optionallyCheckAuthenticatedUser f ctx) s) <> None ->
      fst (run (optionallyCheckAuthenticatedUser f ctx) s) = Some Unauthorized).
Proof.
  intros Hon. split.
  - split.
    + intros Hadm. destruct ctx as [[md|]]; simpl.
      * destruct (md !! "x-forwarded-user") as [[|u more]|] eqn:Hu.
        -- rewrite optionallyCheck_unauthorized in Hadm;
             [discriminate | exact Hon |].
           unfold no_forwarded_user. simpl. now rewrite Hu.
        -- destruct (String.eqb_spec u "") as [E|E].
           ++ rewrite optionallyCheck_unauthorized in Hadm;
                [discriminate | exact Hon |].
              unfold no_forwarded_user. simpl. now rewrite Hu.
           ++ exists md, u, more. auto.
        -- rewrite optionallyCheck_unauthorized in Hadm;
             [discriminate | exact Hon |].
           unfold no_forwarded_user. simpl. now rewrite Hu.
      * rewrite optionallyCheck_unauthorized in Hadm;
          [discriminate | exact Hon | exact I].
    + intros (md & u & more & Hmd & Hu & Hne).
      destruct ctx as [o]. simpl in Hmd. subst o.
      unfold optionallyCheckAuthenticatedUser. rewrite Hon.
      now rewrite (checkAuthenticatedUser_user md u more s Hu Hne).
  - intros Hrej. destruct (auth_gate_run f ctx s) as (lines & _ & _ & [E|E]);
      [contradiction | exact E].
Qed.

(** X4. When the Auth Gate lets a call through it has written two log
    lines, the metadata and then the identity: the user, and the groups
    joined by commas. *)
Theorem admitted_identity_is_logged
    (f : ServerOptsFactory) (md : MD) (u : string) (more : list string)
    (s : Process) :
  AuthProxyEnabled f = true ->
  md !! "x-forwarded-user" = Some (u :: more) ->
  u <> "" ->
  let ctx := {| incoming := Some md |} in
  let groups := snd (fst (run (authenticatedUserFromContext ctx) s)) in
  run (optionallyCheckAuthenticatedUser f ctx) s
  = (None,
     with_log s
       ["Request Metadata: " ++ fmt_MD md;
        "Authenticated as: user=" ++ u ++ ", groups=" ++ strings.Join groups ","]).
Proof.
  intros Hon Hu Hne ctx groups.
  unfold optionallyCheckAuthenticatedUser. rewrite Hon.
  exact (checkAuthenticatedUser_user md u more s Hu Hne).
Qed.

(** X5. The groups are the pieces of the first forwarded-groups value
    between its ["|"] bytes: there is one group more than there are
    ["|"], so at least one (the empty header value gives one group with
    the empty name); no group holds a ["|"]; and joining the groups with
    ["|"] gives the header value back. *)
Theorem forwarded_groups_round_trip
    (md : MD) (value : string) (more : list string) (s : Process) :
  md !! "x-forwarded-groups" = Some (value :: more) ->
  let groups :=
    snd (fst (run (authenticatedUserFromContext {| incoming := Some md |}) s)) in
  strings.Join groups "|" = value
  /\ length groups = S (Count value "|")
  /\ Forall (fun g => Count g "|" = O) groups.
Proof.
  intros Hg groups.
  assert (groups = strings.Split value "|") as ->.
  { unfold groups, authenticatedUserFromContext. simpl. now rewrite Hg. }
  split; [apply Join_Split |].
  split; [apply length_Split | apply Split_fragments].
Qed.

Lemma checkClientVersion_cases (ctx : context_Context) :
  checkClientVersion ctx = None
  \/ checkClientVersion ctx = Some (VersionMismatch ctx).
Proof.
  unfold checkClientVersion, VersionMismatch.
  destruct (version_IsCompatible _ _); simpl; auto.
Qed.

Lemma unary_after_version_gate_outcomes
    (f : ServerOptsFactory) (ctx : context_Context) (req : Req)
    (info : UnaryServerInfo.t) (handler : UnaryHandler) (s : Process) :
  exists lines,
    (length lines <= 2)%nat
    /\ (run (unary_after_version_gate f ctx req info handler) s
        = ((None, Some Unauthorized), with_log s lines)
        \/ run (unary_after_version_gate f ctx req info handler) s
           = run (goprom_UnaryServerInterceptor ctx req info handler)
               (with_log s lines)).
Proof.
  destruct (auth_gate_run f ctx s) as (lines & Hlen & Hs & Hd).
  exists lines. split; [exact Hlen |].
  unfold unary_after_version_gate, run, bind in *.
  destruct (optionallyCheckAuthenticatedUser f ctx s) as [d s'].
  simpl in Hs, Hd. subst s'.
  destruct Hd as [-> | ->]; [now right | now left].
Qed.

(** X6. What the unary interceptor can do: answer the version mismatch,
    answer unauthorized, or hand the call to the instrumented handler and
    give back whatever that gives.  In each case it has only added log
    lines, at most two; it has not touched the backend itself, and a
    refused call has never reached it. *)
Theorem unary_interceptor_outcomes
    (f : ServerOptsFactory) (ctx : context_Context) (req : Req)
    (info : UnaryServerInfo.t) (handler : UnaryHandler) (s : Process) :
  exists lines,
    (length lines <= 2)%nat
    /\ (run (newUnaryInterceptor f ctx req info handler) s
        = ((None, Some (VersionMismatch ctx)), with_log s lines)
        \/ run (newUnaryInterceptor f ctx req info handler) s
           = ((None, Some Unauthorized), with_log s lines)
        \/ run (newUnaryInterceptor f ctx req info handler) s
           = run (goprom_UnaryServerInterceptor ctx req info handler)
               (with_log s lines)).
Proof.
  destruct (unary_after_version_gate_outcomes f ctx req info handler s)
    as (lines & Hlen & Hout).
  destruct (checkClientVersion_cases ctx) as [Hv|Hv].
  - exists lines. split; [exact Hlen |].
    rewrite (unary_compatible f ctx req info handler Hv). tauto.
  - destruct (String.eqb_spec (method_of (UnaryServerInfo.FullMethod info))
                "GetVersion") as [Hm|Hm].
    + exists lines. split; [exact Hlen |].
      rewrite (unary_exempt f ctx req info handler Hm). tauto.
    + exists [VersionMismatch ctx]. split; [simpl; lia |]. left.
      now apply unary_mismatch.
Qed.

(** X7. The stream interceptor likewise: the version mismatch, or
    unauthorized, or the result of the instrumented stream handler, with
    only log lines added, at most two. *)
Theorem stream_interceptor_outcomes
    (f : ServerOptsFactory) (srv : Srv) (ss : ServerStream.t)
    (info : StreamServerInfo.t) (handler : StreamHandler) (s : Process) :
  exists lines,
    (length lines <= 2)%nat
    /\ (run (newStreamInterceptor f srv ss info handler) s
        = (Some (VersionMismatch (ServerStream.Context ss)), with_log s lines)
        \/ run (newStreamInterceptor f srv ss info handler) s
           = (Some Unauthorized, with_log s lines)
        \/ run (newStreamInterceptor f srv ss info handler) s
           = run (goprom_StreamServerInterceptor srv ss info handler)
               (with_log s lines)).
Proof.
  destruct (checkClientVersion_cases (ServerStream.Context ss)) as [Hv|Hv].
  - destruct (auth_gate_run f (ServerStream.Context ss) s)
      as (lines & Hlen & Hs & Hd).
    exists lines. split; [exact Hlen |].
    unfold newStreamInterceptor. rewrite Hv. unfold run, bind in *.
    destruct (optionallyCheckAuthenticatedUser f (ServerStream.Context ss) s)
      as [d s'].
    simpl in Hs, Hd. subst s'.
    destruct Hd as [-> | ->]; [right; now right | right; now left].
  - exists [VersionMismatch (ServerStream.Context ss)].
    split; [simpl; lia |]. left. now apply stream_mismatch.
Qed.

(** X8. With enforcement off, a call the Version Gate lets through goes
    straight to the instrumented handler: nothing is logged and the
    result is the handler's.  This holds for a unary call with a
    compatible version or to the exempt method, and for a streaming call
    with a compatible version. *)
Theorem open_door_passes_calls_through
    (f : ServerOptsFactory) (ctx : context_Context) (s : Process) :
  AuthProxyEnabled f = false ->
  (forall req info handler,
      checkClientVersion ctx = None
      \/ is_exempt (UnaryServerInfo.FullMethod info) = true ->
      run (newUnaryInterceptor f ctx req info handler) s
      = run (goprom_UnaryServerInterceptor ctx req info handler) s)
  /\ (forall srv ss info handler,
         ServerStream.Context ss = ctx ->
         checkClientVersion ctx = None ->
         run (newStreamInterceptor f srv ss info handler) s
         = run (goprom_StreamServerInterceptor srv ss info handler) s).
Proof.
  intros Hoff. split.
  - intros req info handler Hpass.
    assert (newUnaryInterceptor f ctx req info handler
            = unary_after_version_gate f ctx req info handler) as ->.
    { destruct Hpass as [Hv|Hm]; [now apply unary_compatible |].
      apply unary_exempt. unfold is_exempt in Hm.
      now apply String.eqb_eq. }
    unfold unary_after_version_gate, optionallyCheckAuthenticatedUser.
    rewrite Hoff. reflexivity.
  - intros srv ss info handler Hctx Hv.
    unfold newStreamInterceptor, optionallyCheckAuthenticatedUser.
    rewrite Hctx, Hv, Hoff. reflexivity.
Qed.

(** X9. Each gate reads its own header and no other: setting any other
    header to any values changes neither the Version Gate's answer nor
    the Auth Gate's. *)
Theorem gates_read_only_their_headers
    (f : ServerOptsFactory) (md : MD) (key : string) (vs : list string)
    (s : Process) :
  let ctx := {| incoming := Some md |} in
  let ctx' := {| incoming := Some (<[key := vs]> md) |} in
  (key <> "x-helm-api-client" ->
   checkClientVersion ctx' = checkClientVersion ctx)
  /\ (key <> "x-forwarded-user" ->
      fst (run (optionallyCheckAuthenticatedUser f ctx') s)
      = fst (run (optionallyCheckAuthenticatedUser f ctx) s)).
Proof.
  intros ctx ctx'. split; intros Hk.
  - unfold checkClientVersion, versionFromContext. simpl.
    now rewrite lookup_insert_ne by congruence.
  - unfold optionallyCheckAuthenticatedUser.
    destruct (AuthProxyEnabled f); [| reflexivity].
    unfold checkAuthenticatedUser, authenticatedUserFromContext. simpl.
    unfold run, bind, ret, log_line. simpl.
    rewrite lookup_insert_ne by congruence.
    destruct (md !! "x-forwarded-user") as [[|u more]|]; simpl; try reflexivity.
    destruct (String.eqb u ""); reflexivity.
Qed.

End Gates.

(** *** On the concrete server *)
Section Examples.
#[local] Existing Instances Demo.externals Demo.instrumentation.

(** An old client may still ask any service for [GetVersion]. *)
Lemma unary_exemption_by_method_shape_witness :
  run (newUnaryInterceptor Demo.open_door
         (Demo.call [("x-helm-api-client", ["v1.0.0"])]) (Demo.request "ping")
         {| UnaryServerInfo.FullMethod := "/any.Service/GetVersion" |}
         Demo.echo) Demo.idle
  = ((Demo.reply "ping", None), Demo.state [] 1).
Proof.
  rewrite (proj1 (unary_exemption_by_method_shape Demo.open_door
                    (Demo.call [("x-helm-api-client", ["v1.0.0"])])
                    (Demo.request "ping")
                    {| UnaryServerInfo.FullMethod := "/any.Service/GetVersion" |}
                    Demo.echo Demo.idle eq_refl)).
  - reflexivity.
  - exists "", "any.Service". split; [reflexivity |]. split; reflexivity.
Defined.

(** A bare ["GetVersion"], without service, is not exempt. *)
Lemma malformed_method_is_not_exempt_witness :
  run (newUnaryInterceptor Demo.open_door
         (Demo.call [("x-helm-api-client", ["v1.0.0"])]) (Demo.request "ping")
         {| UnaryServerInfo.FullMethod := "GetVersion" |} Demo.echo) Demo.idle
  = ((None, Some "incompatible versions client[v1.0.0] server[v2.9.0]"),
     Demo.state ["incompatible versions client[v1.0.0] server[v2.9.0]"] O).
Proof.
  apply (malformed_method_is_not_exempt Demo.open_door
           (Demo.call [("x-helm-api-client", ["v1.0.0"])]) (Demo.request "ping")
           {| UnaryServerInfo.FullMethod := "GetVersion" |} Demo.echo Demo.idle).
  - vm_compute. discriminate.
  - vm_compute. reflexivity.
Defined.

(** Only the first value counts: [["bob"; ""]] is let through. *)
Lemma auth_gate_admits_iff_first_user_value_witness :
  fst (run (optionallyCheckAuthenticatedUser Demo.enforcing
              (Demo.call [("x-forwarded-user", ["bob"; ""])])) Demo.idle)
  = None.
Proof.
  apply (auth_gate_admits_iff_first_user_value Demo.enforcing
           (Demo.call [("x-forwarded-user", ["bob"; ""])]) Demo.idle eq_refl).
  exists (list_to_map [("x-forwarded-user", ["bob"; ""])]), "bob", [""].
  split; [reflexivity |]. split; [vm_compute; reflexivity | discriminate].
Defined.

Lemma admitted_identity_is_logged_witness :
  logged
    (snd (run (optionallyCheckAuthenticatedUser Demo.enforcing
                 (Demo.call [("x-forwarded-user", ["bob"]);
                             ("x-forwarded-groups", ["ops|dev|qa"])]))
            Demo.idle))
  = ["Request Metadata: "
     ++ fmt_MD (list_to_map [("x-forwarded-user", ["bob"]);
                             ("x-forwarded-groups", ["ops|dev|qa"])]);
     "Authenticated as: user=bob, groups=ops,dev,qa"].
Proof.
  unfold Demo.call.
  rewrite (admitted_identity_is_logged Demo.enforcing
             (list_to_map [("x-forwarded-user", ["bob"]);
                           ("x-forwarded-groups", ["ops|dev|qa"])])
             "bob" [] Demo.idle eq_refl);
    [reflexivity | vm_compute; reflexivity | discriminate].
Defined.

(** An empty piece is a group too: ["ops||qa"] gives three groups. *)
Lemma forwarded_groups_round_trip_witness :
  length
    (snd (fst (run (authenticatedUserFromContext
                      (Demo.call [("x-forwarded-groups", ["ops||qa"])]))
                 Demo.idle)))
  = 3%nat.
Proof.
  apply (forwarded_groups_round_trip
           (list_to_map [("x-forwarded-groups", ["ops||qa"])])
           "ops||qa" [] Demo.idle).
  vm_compute. reflexivity.
Defined.

Lemma open_door_passes_calls_through_witness :
  run (newUnaryInterceptor Demo.open_door
         (Demo.call [("x-helm-api-client", ["v2.4.1"])]) (Demo.request "list")
         {| UnaryServerInfo.FullMethod :=
              "/hapi.services.tiller.ReleaseService/GetReleaseStatus" |}
         Demo.echo) Demo.idle
  = ((Demo.reply "list", None), Demo.state [] 1).
Proof.
  rewrite (proj1 (open_door_passes_calls_through Demo.open_door
                    (Demo.call [("x-helm-api-client", ["v2.4.1"])])
                    Demo.idle eq_refl)).
  - reflexivity.
  - left. vm_compute. reflexivity.
Defined.

(** A forged forwarded-user header does not help an old client. *)
Lemma gates_read_only_their_headers_witness :
  checkClientVersion
    {| incoming :=
         Some (insert "x-forwarded-user" ["root"]
                 (list_to_map [("x-helm-api-client", ["v1.0.0"])])) |}
  = checkClientVersion (Demo.call [("x-helm-api-client", ["v1.0.0"])]).
Proof.
  apply (gates_read_only_their_headers Demo.open_door
           (list_to_map [("x-helm-api-client", ["v1.0.0"])])
           "x-forwarded-user" ["root"] Demo.idle).
  discriminate.
Defined.

End Examples.

End TillerMore.

(** ** More on the [helm lint] command *)
Module LintMore.
Import strings stringsFacts Lint LintFacts.

(** *** [strings.LastIndex] *)
Section LastIndexFacts.

Lemma LastIndex_lower (s : string) (c : ascii) : -1 <= LastIndex s c.
Proof.
  induction s as [|a s IH]; simpl; [lia |].
  destruct (Z.leb_spec 0 (LastIndex s c)); [lia |].
  destruct (Ascii.eqb a c); lia.
Qed.

Lemma LastIndex_absent (s : string) (c : ascii) :
  Count s c = O -> LastIndex s c = -1.
Proof.
  induction s as [|a s IH]; simpl; [reflexivity |].
  destruct (Ascii.eqb a c); simpl; [discriminate |].
  intros Hc. now rewrite (IH Hc).
Qed.

Lemma LastIndex_present (s : string) (c : ascii) :
  Count s c <> O -> 0 <= LastIndex s c.
Proof.
  induction s as [|a s IH]; simpl; [congruence |].
  destruct (Z.leb_spec 0 (LastIndex s c)); [lia |].
  destruct (Ascii.eqb a c); simpl; [lia |].
  intros Hc. specialize (IH Hc). lia.
Qed.

(** The index of the last separator is the length of what stands before
    it. *)
Lemma LastIndex_app (name rest : string) (c : ascii) :
  Count rest c = O ->
  LastIndex (name ++ String c rest) c = Z.of_nat (String.length name).
Proof.
  intros Hr. induction name as [|a name IH].
  - rewrite append_nil_l. simpl. rewrite (LastIndex_absent _ _ Hr). simpl.
    now rewrite Ascii.eqb_refl.
  - rewrite append_cons. cbn [LastIndex String.length]. rewrite IH.
    destruct (Z.leb_spec 0 (Z.of_nat (String.length name))); lia.
Qed.

Lemma substring_app (name rest : string) :
  String.substring 0 (String.length name) (name ++ rest) = name.
Proof.
  induction name as [|a name IH].
  - rewrite append_nil_l. now destruct rest.
  - rewrite append_cons. simpl. now rewrite IH.
Qed.

(** A separator past the first byte: something non-empty stands before
    a separator. *)
Lemma LastIndex_positive_iff (b : string) (c : ascii) :
  0 < LastIndex b c
  <-> exists name rest, name <> "" /\ b = name ++ String c rest.
Proof.
  split.
  - destruct b as [|a t]; simpl; [lia |].
    destruct (Z.leb_spec 0 (LastIndex t c)) as [Hle|Hlt].
    + intros _.
      assert (Count t c <> O) as Hc.
      { intros E. rewrite (LastIndex_absent _ _ E) in Hle. lia. }
      destruct (Count t c) as [|n] eqn:En; [congruence |].
      destruct (Count_S_inv _ _ _ En) as (x & y & -> & _ & _).
      exists (String a x), y. split; [discriminate | reflexivity].
    + destruct (Ascii.eqb a c); lia.
  - intros (name & rest & Hne & ->).
    destruct name as [|a name]; [congruence |].
    rewrite append_cons. cbn [LastIndex].
    assert (0 <= LastIndex (name ++ String c rest) c) as Hle.
    { apply LastIndex_present. rewrite Count_app. simpl.
      rewrite Ascii.eqb_refl. lia. }
    destruct (Z.leb_spec 0 (LastIndex (name ++ String c rest) c)); lia.
Qed.

(** *** [filepath.Base] *)

Lemma length_append (a b : string) :
  String.length (a ++ b) = (String.length a + String.length b)%nat.
Proof.
  induction a as [|c a IH]; [reflexivity |].
  rewrite append_cons. simpl. now rewrite IH.
Qed.

Lemma substring_skip (a b : string) (n : nat) :
  String.substring (String.length a) n (a ++ b) = String.substring 0 n b.
Proof.
  induction a as [|c a IH]; [reflexivity |].
  rewrite append_cons. simpl. exact IH.
Qed.

Lemma substring_full (s : string) :
  String.substring 0 (String.length s) s = s.
Proof.
  pose proof (substring_app s "") as E. now rewrite append_nil_r in E.
Qed.

Lemma append_not_nil (a b : string) : b <> "" -> a ++ b <> "".
Proof.
  intros Hb. destruct a as [|c a]; [exact Hb |].
  rewrite append_cons. discriminate.
Qed.

(** Nothing is stripped from a path that ends in a byte other than a
    slash. *)
Lemma strip_trailing_slashes_id (t : string) (c : ascii) :
  c <> "/"%char ->
  strip_trailing_slashes (t ++ String c "") = t ++ String c "".
Proof.
  intros Hc. induction t as [|a t IH].
  - rewrite append_nil_l. simpl.
    destruct (Ascii.eqb_spec c "/"); [contradiction | reflexivity].
  - rewrite append_cons. cbn [strip_trailing_slashes]. rewrite IH.
    destruct (String.eqb_spec (t ++ String c "") "") as [E|E].
    + exfalso. revert E. apply append_not_nil. discriminate.
    + reflexivity.
Qed.

Lemma last_byte (file : string) (sep : ascii) :
  file <> "" -> Count file sep = O ->
  exists t c, file = t ++ String c "" /\ c <> sep.
Proof.
  induction file as [|a file IH]; [congruence |].
  intros _. simpl. destruct (Ascii.eqb_spec a sep) as [E|E]; [discriminate |].
  simpl. intros Hc. destruct file as [|b file].
  - exists "", a. split; [reflexivity | exact E].
  - destruct (IH ltac:(discriminate) Hc) as (t & c & Ht & Hne).
    exists (String a t), c. rewrite append_cons, <- Ht. auto.
Qed.

(** The base of [dir/file] is [file], when [file] is not empty and holds
    no slash. *)
Lemma filepath_Base_file (dir file : string) :
  file <> "" -> Count file "/" = O ->
  filepath_Base (dir ++ "/" ++ file) = file.
Proof.
  intros Hne Hc. unfold filepath_Base.
  change (dir ++ "/" ++ file) with (dir ++ String "/" file).
  destruct (String.eqb_spec (dir ++ String "/" file) "") as [E|_].
  { exfalso. revert E. apply append_not_nil. discriminate. }
  assert (strip_trailing_slashes (dir ++ String "/" file)
          = dir ++ String "/" file) as ->.
  { destruct (last_byte file "/" Hne Hc) as (t & c & -> & Hcne).
    change (dir ++ String "/" (t ++ String c ""))
      with (dir ++ (String "/" t) ++ String c "").
    rewrite <- append_assoc. now apply strip_trailing_slashes_id. }
  rewrite (LastIndex_app dir file "/" Hc).
  destruct (Z.leb_spec 0 (Z.of_nat (String.length dir))); [| lia].
  replace (Z.to_nat (Z.of_nat (String.length dir) + 1))
    with (String.length (dir ++ "/")) by (rewrite length_append; simpl; lia).
  change (dir ++ String "/" file) with (dir ++ "/" ++ file).
  rewrite <- (append_assoc dir "/" file).
  rewrite substring_skip.
  rewrite (length_append (dir ++ "/") file).
  replace (String.length (dir ++ "/") + String.length file
           - String.length (dir ++ "/"))%nat
    with (String.length file) by lia.
  rewrite substring_full.
  destruct (String.eqb_spec file ""); [contradiction | reflexivity].
Qed.

End LastIndexFacts.

Section Charts.
Context `{Engine}.

(** *** [lintChart] *)

Lemma lintChart_named_archive
    (path : string) (rvals : list Byte.byte) (ns : string) (st : bool)
    (d0 d1 d2 d3 : FS) (tmp : string) (file : File) (name version : string) :
  HasSuffix path ".tgz" = true ->
  ioutil_TempDir "" "helm-lint" d0 = (inl tmp, d1) ->
  os_Open path d1 = (inl file, d2) ->
  chartutil_Expand tmp file d2 = (None, d3) ->
  filepath_Base path = name ++ "-" ++ version ->
  name <> "" ->
  Count version "-" = O ->
  fst (lintChart path rvals ns st d0)
  = fst (lint_dir (filepath_Join tmp name) rvals ns st d3).
Proof.
  intros Hs Ht Ho He Hb Hn Hv.
  assert (LastIndex (filepath_Base path) "-" = Z.of_nat (String.length name))
    as Hi.
  { rewrite Hb. exact (LastIndex_app name version "-" Hv). }
  assert (0 < LastIndex (filepath_Base path) "-") as Hpos.
  { rewrite Hi. destruct name; [congruence | simpl; lia]. }
  rewrite (lintChart_archive path rvals ns st d0 d1 d2 d3 tmp file
             Hs Ht Ho He Hpos).
  cbn [fst]. rewrite Hi, Nat2Z.id, Hb.
  now rewrite (substring_app name ("-" ++ version)).
Qed.

(** X10. An archive that expands, and whose base name is
    [name-version] with [name] not empty and no hyphen in [version], is
    linted as the directory [name] under the temporary directory: the
    chart name is the base name up to its last hyphen. *)
Theorem archive_is_linted_under_its_name
    (path : string) (rvals : list Byte.byte) (ns : string) (st : bool)
    (d0 d1 d2 d3 : FS) (tmp : string) (file : File) (name version : string) :
  HasSuffix path ".tgz" = true ->
  ioutil_TempDir "" "helm-lint" d0 = (inl tmp, d1) ->
  os_Open path d1 = (inl file, d2) ->
  chartutil_Expand tmp file d2 = (None, d3) ->
  filepath_Base path = name ++ "-" ++ version ->
  name <> "" ->
  Count version "-" = O ->
  fst (lintChart path rvals ns st d0)
  = fst (lint_dir (filepath_Join tmp name) rvals ns st d3).
Proof. apply lintChart_named_archive. Qed.

(** X17. The directories on the way to an archive play no part in the
    chart name: for [dir/name-version], with no slash in [name] and
    [version] and no hyphen in [version], the chart is linted as [name]
    under the temporary directory, whatever [dir] is, hyphens in it
    included. *)
Theorem archive_name_ignores_directories
    (dir name version : string) (rvals : list Byte.byte) (ns : string)
    (st : bool) (d0 d1 d2 d3 : FS) (tmp : string) (file : File) :
  let path := dir ++ "/" ++ name ++ "-" ++ version in
  HasSuffix path ".tgz" = true ->
  ioutil_TempDir "" "helm-lint" d0 = (inl tmp, d1) ->
  os_Open path d1 = (inl file, d2) ->
  chartutil_Expand tmp file d2 = (None, d3) ->
  name <> "" ->
  Count name "/" = O ->
  Count version "/" = O ->
  Count version "-" = O ->
  fst (lintChart path rvals ns st d0)
  = fst (lint_dir (filepath_Join tmp name) rvals ns st d3).
Proof.
  intros path Hs Ht Ho He Hn Hcn Hcv Hv.
  apply (lintChart_named_archive path rvals ns st d0 d1 d2 d3 tmp file
           name version Hs Ht Ho He); [| exact Hn | exact Hv].
  apply filepath_Base_file.
  - intros E. destruct name; [congruence |]. rewrite append_cons in E.
    discriminate.
  - rewrite Count_app. change ("-" ++ version) with (String "-" version).
    simpl. rewrite Hcn, Hcv. reflexivity.
Qed.

(** X11. For an archive that expands, the error about the missing hyphen
    is given exactly when the base name has no hyphen with something
    before it: no hyphen at all, or one as its first byte only. *)
Theorem archive_needs_a_name_before_a_hyphen
    (path : string) (rvals : list Byte.byte) (ns : string) (st : bool)
    (d0 d1 d2 d3 : FS) (tmp : string) (file : File) :
  HasSuffix path ".tgz" = true ->
  ioutil_TempDir "" "helm-lint" d0 = (inl tmp, d1) ->
  os_Open path d1 = (inl file, d2) ->
  chartutil_Expand tmp file d2 = (None, d3) ->
  snd (fst (lintChart path rvals ns st d0))
  = Some (errorString ("unable to parse chart archive "
                       ++ fmt_q (filepath_Base path) ++ ", missing '-'"))
  <-> ~ exists name rest,
          name <> "" /\ filepath_Base path = name ++ "-" ++ rest.
Proof.
  intros Hs Ht Ho He.
  destruct (Z.lt_ge_cases 0 (LastIndex (filepath_Base path) "-")) as [Hpos|Hle].
  - split.
    + intros Herr. exfalso.
      rewrite (lintChart_archive path rvals ns st d0 d1 d2 d3 tmp file
                 Hs Ht Ho He Hpos) in Herr.
      cbn [fst] in Herr.
      destruct (lint_dir_shapes
                  (filepath_Join tmp
                     (String.substring 0
                        (Z.to_nat (LastIndex (filepath_Base path) "-"))
                        (filepath_Base path))) rvals ns st d3)
        as [[_ E] | [_ E]]; rewrite E in Herr; discriminate.
    + intros Hno. exfalso. apply Hno.
      now apply (LastIndex_positive_iff (filepath_Base path) "-").
  - split.
    + intros _ Hex.
      apply (LastIndex_positive_iff (filepath_Base path) "-") in Hex. lia.
    + intros _.
      now rewrite (lintChart_missing_hyphen path rvals ns st d0 d1 d2 d3
                     tmp file Hs Ht Ho He Hle).
Qed.

(** X12. Once the temporary directory of an archive is made, every way
    out of [lintChart] removes it as its last step on the file system;
    and once the archive is open, it is closed just before. *)
Theorem temporary_directory_is_removed
    (path : string) (rvals : list Byte.byte) (ns : string) (st : bool)
    (d0 d1 : FS) (tmp : string) :
  HasSuffix path ".tgz" = true ->
  ioutil_TempDir "" "helm-lint" d0 = (inl tmp, d1) ->
  exists d,
    snd (lintChart path rvals ns st d0) = snd (os_RemoveAll tmp d)
    /\ forall file d2,
         os_Open path d1 = (inl file, d2) ->
         exists d', d = snd (os_Close file d').
Proof.
  intros Hs Ht. unfold lintChart, bind, ret. rewrite Hs, Ht.
  destruct (os_Open path d1) as [[file|msg] d2].
  - destruct (chartutil_Expand tmp file d2) as [[msg|] d3].
    + destruct (os_Close file d3) as [[] d4] eqn:Ec.
      destruct (os_RemoveAll tmp d4) as [[] d5] eqn:Er.
      exists d4. rewrite Er. split; [reflexivity |].
      intros file' d2' E. inversion E; subst. exists d3. now rewrite Ec.
    + destruct (LastIndex (filepath_Base path) "-" <=? 0).
      * destruct (os_Close file d3) as [[] d4] eqn:Ec.
        destruct (os_RemoveAll tmp d4) as [[] d5] eqn:Er.
        exists d4. rewrite Er. split; [reflexivity |].
        intros file' d2' E. inversion E; subst. exists d3. now rewrite Ec.
      * destruct (lint_dir _ rvals ns st d3) as [r d3'].
        destruct (os_Close file d3') as [[] d4] eqn:Ec.
        destruct (os_RemoveAll tmp d4) as [[] d5] eqn:Er.
        exists d4. rewrite Er. split; [reflexivity |].
        intros file' d2' E. inversion E; subst. exists d3'. now rewrite Ec.
  - destruct (os_RemoveAll tmp d2) as [[] d5] eqn:Er.
    exists d2. rewrite Er. split; [reflexivity |].
    intros file d2' E. discriminate.
Qed.

(** With an error, [lintChart] gives the zero linter. *)
Lemma lintChart_error_linter
    (path : string) (rvals : list Byte.byte) (ns : string) (st : bool)
    (d0 : FS) (err : error) :
  snd (fst (lintChart path rvals ns st d0)) = Some err ->
  fst (fst (lintChart path rvals ns st d0)) = Linter_zero.
Proof.
  unfold lintChart. destruct (HasSuffix path ".tgz").
  - unfold bind, ret.
    destruct (ioutil_TempDir "" "helm-lint" d0) as [[tmp|msg] d1];
      [| reflexivity].
    destruct (os_Open path d1) as [[file|msg] d2].
    + destruct (chartutil_Expand tmp file d2) as [[msg|] d3].
      * destruct (os_Close file d3) as [[] d4].
        now destruct (os_RemoveAll tmp d4) as [[] d5].
      * destruct (LastIndex (filepath_Base path) "-" <=? 0).
        -- destruct (os_Close file d3) as [[] d4].
           now destruct (os_RemoveAll tmp d4) as [[] d5].
        -- match goal with
           | |- context [lint_dir ?dir rvals ns st d3] =>
               destruct (lint_dir_shapes dir rvals ns st d3)
                 as [[Hst E] | [Hst E]]; rewrite E
           end;
             destruct (os_Close file _) as [[] d4];
             destruct (os_RemoveAll tmp d4) as [[] d5]; simpl;
             [reflexivity | discriminate].
    + now destruct (os_RemoveAll tmp d2) as [[] d5].
  - destruct (lint_dir_shapes path rvals ns st d0) as [[Hst E] | [Hst E]];
      rewrite E; simpl; [reflexivity | discriminate].
Qed.

(** X13. What [lintChart] gives back, and what it leaves.  For a
    directory without [Chart.yaml]: the zero linter, [errLintNoChart],
    and the file system as it was, so the engine has done nothing.  For
    a directory with [Chart.yaml]: the findings of the engine for that
    directory, no error, and the file system the engine left.  For an
    archive that expanded and has its hyphen, the same of its chart
    directory under the temporary directory, from the file system the
    expansion left, followed by closing the file and removing the
    temporary directory.  And whenever there is an error, the linter is
    the zero one: findings never come with an error. *)
Theorem lintChart_result_shapes
    (path : string) (rvals : list Byte.byte) (ns : string) (st : bool)
    (d0 : FS) :
  (HasSuffix path ".tgz" = false ->
   lintChart path rvals ns st d0
   = if os_Stat (filepath_Join path "Chart.yaml") d0
     then ((fst (lint_All path rvals ns st d0), None),
           snd (lint_All path rvals ns st d0))
     else ((Linter_zero, Some errLintNoChart), d0))
  /\ (forall tmp d1 file d2 d3,
         HasSuffix path ".tgz" = true ->
         ioutil_TempDir "" "helm-lint" d0 = (inl tmp, d1) ->
         os_Open path d1 = (inl file, d2) ->
         chartutil_Expand tmp file d2 = (None, d3) ->
         0 < LastIndex (filepath_Base path) "-" ->
         let dir := archive_chart_path tmp path in
         lintChart path rvals ns st d0
         = if os_Stat (filepath_Join dir "Chart.yaml") d3
           then ((fst (lint_All dir rvals ns st d3), None),
                 snd (os_RemoveAll tmp
                        (snd (os_Close file
                                (snd (lint_All dir rvals ns st d3))))))
           else ((Linter_zero, Some errLintNoChart),
                 snd (os_RemoveAll tmp (snd (os_Close file d3)))))
  /\ (forall err,
         snd (fst (lintChart path rvals ns st d0)) = Some err ->
         fst (fst (lintChart path rvals ns st d0)) = Linter_zero).
Proof.
  split; [| split].
  - intros Hs. rewrite (lintChart_directory path rvals ns st Hs).
    destruct (lint_dir_shapes path rvals ns st d0) as [[Hst E] | [Hst E]];
      now rewrite E, Hst.
  - intros tmp d1 file d2 d3 Hs Ht Ho He Hi dir.
    rewrite (lintChart_archive path rvals ns st d0 d1 d2 d3 tmp file
               Hs Ht Ho He Hi).
    fold (archive_chart_path tmp path). fold dir.
    destruct (lint_dir_shapes dir rvals ns st d3) as [[Hst E] | [Hst E]];
      now rewrite E, Hst.
  - intros err. apply lintChart_error_linter.
Qed.

(** *** [run] *)

Lemma filter_split_length {A} (p : A -> bool) (xs : list A) :
  (length (List.filter p xs) + length (List.filter (fun x => negb (p x)) xs)
   = length xs)%nat.
Proof.
  induction xs as [|x xs IH]; [reflexivity |].
  cbn [List.filter]. destruct (p x); simpl; lia.
Qed.

Lemma filter_length_bound {A} (p : A -> bool) (xs : list A) :
  (length (List.filter p xs) <= length xs)%nat.
Proof. pose proof (filter_split_length p xs). lia. Qed.

(** One iteration writes the report of its path. *)
Lemma lint_path_transcript (l : lintCmd) (rvals : list Byte.byte) (tol : Z)
    (path : string) (total failures : Z) (s : Process) :
  lint_path l rvals tol path total failures s
  = (count_path tol (total, failures)
       (fst (lintChart path rvals (namespace l) (strict l) (fs s))),
     {| fs := snd (lintChart path rvals (namespace l) (strict l) (fs s));
        written :=
          written s
          ++ map Stdout
               (report path
                  (fst (lintChart path rvals (namespace l) (strict l) (fs s))))
     |}).
Proof.
  unfold lint_path, bind, on_fs, report.
  destruct (lintChart path rvals (namespace l) (strict l) (fs s))
    as [[linter [err|]] disk']; simpl.
  - unfold count_path, path_linted, path_fails, fmt_Println, emit, ret; simpl.
    now rewrite <- !app_assoc.
  - unfold count_path, path_linted, path_fails, fmt_Println, emit, ret; simpl.
    destruct (length (Messages linter) =? 0)%nat; simpl;
      rewrite print_messages_run; simpl;
      rewrite ?map_app, <- ?app_assoc; reflexivity.
Qed.

Lemma lint_paths_transcript (l : lintCmd) (rvals : list Byte.byte) (tol : Z)
    (paths : list string) :
  forall (total failures : Z) (s : Process),
  exists disk',
    lint_paths l rvals tol paths total failures s
    = (fold_left (count_path tol) (lint_each l rvals paths (fs s))
         (total, failures),
       {| fs := disk';
          written :=
            written s
            ++ map Stdout (reports paths (lint_each l rvals paths (fs s))) |}).
Proof.
  induction paths as [|path rest IH]; intros total failures s.
  - exists (fs s). simpl. unfold ret. destruct s; simpl.
    now rewrite app_nil_r.
  - cbn [lint_paths lint_each]. unfold bind.
    rewrite (lint_path_transcript l rvals tol path total failures s).
    destruct (lintChart path rvals (namespace l) (strict l) (fs s))
      as [r disk1].
    cbn [fst snd fold_left reports].
    destruct (count_path tol (total, failures) r) as [t f] eqn:Ec.
    cbn [fst snd].
    destruct (IH t f {| fs := disk1;
                        written := written s ++ map Stdout (report path r) |})
      as (disk' & Hr).
    exists disk'. rewrite Hr. cbn [fs written].
    now rewrite map_app, <- app_assoc.
Qed.

(** [run], once the values are loaded and as long as the counters do not
    wrap: its answer and all it writes. *)
Lemma run_loaded_exact (l : lintCmd) (s : Process) (rvals : list Byte.byte)
    (disk : FS) :
  vals (valueFiles l) (Lint.values l) (sValues l) (fValues l)
       (certFile l) (keyFile l) (caFile l) (fs s) = (inl rvals, disk) ->
  Z.of_nat (length (paths l)) < 2 ^ 63 ->
  let results := lint_each l rvals (paths l) disk in
  let linted := Z.of_nat (length (List.filter path_linted results)) in
  let failed :=
    Z.of_nat (length (List.filter (path_fails (tolerance l)) results)) in
  exists disk',
    run l s
    = if 0 <? failed
      then (Some (errorString
                    ((fmt_d linted ++ " chart(s) linted") ++ ", "
                     ++ fmt_d failed ++ " chart(s) failed")),
            {| fs := disk';
               written := written s ++ map Stdout (reports (paths l) results) |})
      else (None,
            {| fs := disk';
               written :=
                 (written s ++ map Stdout (reports (paths l) results))
                 ++ [Out ((fmt_d linted ++ " chart(s) linted")
                          ++ ", no failures" ++ nl)] |}).
Proof.
  intros Hv Hlen results linted failed. subst results linted failed.
  unfold run. unfold bind at 1. unfold on_fs. rewrite Hv.
  change (if strict l then support_WarningSev else support_ErrorSev)
    with (tolerance l).
  destruct (lint_paths_transcript l rvals (tolerance l) (paths l) 0 0
              {| fs := disk; written := written s |}) as (disk' & Hr).
  exists disk'. unfold bind at 1.
  rewrite Hr. cbn [fs written].
  rewrite fold_count_path; rewrite ?length_lint_each; try lia.
  rewrite !Z.add_0_l.
  destruct (0 <? _); [reflexivity |].
  unfold bind, emit, ret. reflexivity.
Qed.

(** X14. The numbers in the summary.  Once the values are loaded, the
    error of [run] reads [<linted> chart(s) linted, <failed> chart(s)
    failed], where [linted] counts the paths [lintChart] gave no error
    for and [failed] the failing paths, and [run] gives no error when
    [failed] is zero.  Every path is either linted or skipped, and no
    more paths fail than there are. *)
Theorem run_summary_counts (l : lintCmd) (s : Process)
    (rvals : list Byte.byte) (disk : FS) :
  vals (valueFiles l) (Lint.values l) (sValues l) (fValues l)
       (certFile l) (keyFile l) (caFile l) (fs s) = (inl rvals, disk) ->
  Z.of_nat (length (paths l)) < 2 ^ 63 ->
  let results := lint_each l rvals (paths l) disk in
  let linted := length (List.filter path_linted results) in
  let skipped := length (List.filter (fun r => negb (path_linted r)) results) in
  let failed := length (List.filter (path_fails (tolerance l)) results) in
  fst (run l s)
  = (if (0 <? failed)%nat
     then Some (errorString
                  ((fmt_d (Z.of_nat linted) ++ " chart(s) linted") ++ ", "
                   ++ fmt_d (Z.of_nat failed) ++ " chart(s) failed"))
     else None)
  /\ (linted + skipped = length (paths l))%nat
  /\ (failed <= length (paths l))%nat.
Proof.
  intros Hv Hlen results linted skipped failed.
  destruct (run_loaded_exact l s rvals disk Hv Hlen) as (disk' & Hr).
  cbn zeta in Hr. fold results in Hr. fold linted in Hr. fold failed in Hr.
  split; [| split].
  - rewrite Hr.
    destruct (Nat.ltb_spec 0 failed), (Z.ltb_spec 0 (Z.of_nat failed));
      try lia; reflexivity.
  - unfold linted, skipped. rewrite filter_split_length.
    apply length_lint_each.
  - unfold failed.
    rewrite <- (length_lint_each l rvals (paths l) disk).
    apply filter_length_bound.
Qed.

(** X15. All that [run] writes.  If the values do not load, nothing.
    Otherwise standard output gets the report of each path in the order
    of the paths: for a skipped path the line [==> Skipping path], the
    error and an empty line; for a linted one [==> Linting path],
    [Lint OK] if there is no message, the messages, and an empty line.
    The writer [out] is written to only when [run] succeeds, once, and
    last, with the summary. *)
Theorem run_transcript (l : lintCmd) (s : Process) :
  Z.of_nat (length (paths l)) < 2 ^ 63 ->
  match vals (valueFiles l) (Lint.values l) (sValues l) (fValues l)
             (certFile l) (keyFile l) (caFile l) (fs s) with
  | (inr err, disk) =>
      run l s = (Some err, {| fs := disk; written := written s |})
  | (inl rvals, disk) =>
      let results := lint_each l rvals (paths l) disk in
      written (snd (run l s))
      = app (app (written s) (map Stdout (reports (paths l) results)))
          (match fst (run l s) with
           | Some _ => []
           | None =>
               [Out ((fmt_d (Z.of_nat (length (List.filter path_linted results)))
                      ++ " chart(s) linted") ++ ", no failures" ++ nl)]
           end)
  end.
Proof.
  intros Hlen.
  destruct (vals _ _ _ _ _ _ _ (fs s)) as [[rvals|err] disk] eqn:Hv.
  - destruct (run_loaded_exact l s rvals disk Hv Hlen) as (disk' & Hr).
    cbn zeta in *. rewrite Hr.
    destruct (0 <? _); cbn [fst snd written]; [| reflexivity].
    now rewrite app_nil_r.
  - unfold run. unfold bind at 1. unfold on_fs. now rewrite Hv.
Qed.

(** X16. [helm lint] without arguments lints the current directory, and
    with arguments lints exactly them.  So without arguments, in a
    directory without [Chart.yaml], the command fails with
    [0 chart(s) linted, 1 chart(s) failed]. *)
Theorem lint_without_arguments
    (valueFiles values sValues fValues : list string) (strict : bool)
    (certFile keyFile caFile : string) (s : Process)
    (rvals : list Byte.byte) (disk : FS) :
  let l := newLintCmd valueFiles values sValues fValues strict
             certFile keyFile caFile in
  vals valueFiles values sValues fValues certFile keyFile caFile (fs s)
  = (inl rvals, disk) ->
  os_Stat (filepath_Join "." "Chart.yaml") disk = false ->
  fst (RunE l [] s)
  = Some (errorString "0 chart(s) linted, 1 chart(s) failed")
  /\ lint_each l rvals (paths l) disk = [(Linter_zero, Some errLintNoChart)]
  /\ (forall args, args <> [] -> RunE l args s = run (set_paths l args) s).
Proof.
  intros l Hv Hst.
  assert (lint_each l rvals (paths l) disk
          = [(Linter_zero, Some errLintNoChart)]) as He.
  { subst l. unfold newLintCmd.
    cbn [paths namespace Lint.strict lint_each].
    rewrite (lintChart_directory "." rvals _ _ eq_refl).
    destruct (lint_dir_shapes "." rvals "" strict disk) as [[_ E] | [E _]];
      [now rewrite E | congruence]. }
  split; [| split; [exact He |]].
  - unfold RunE. cbn [length Nat.ltb Nat.leb].
    destruct (run_loaded_exact l s rvals disk Hv) as (disk' & Hr).
    { cbn. lia. }
    cbn zeta in Hr. rewrite He in Hr. rewrite Hr. reflexivity.
  - intros args Hargs. unfold RunE.
    destruct args; [congruence | reflexivity].
Qed.

End Charts.

(** *** On the concrete file system *)
Section Examples.
#[local] Existing Instances Demo.externals Demo.engine.

(** [repo/mychart-1.2.3.tgz] is linted as [/tmp/helm-lint/mychart]. *)
Lemma archive_is_linted_under_its_name_witness :
  fst (lintChart "repo/mychart-1.2.3.tgz" [] "" false Demo.shelf)
  = fst (lint_dir "/tmp/helm-lint/mychart" [] "" false
           (Demo.unpacked Demo.shelf)).
Proof.
  apply (archive_is_linted_under_its_name "repo/mychart-1.2.3.tgz" [] "" false
           Demo.shelf Demo.shelf Demo.shelf (Demo.unpacked Demo.shelf)
           "/tmp/helm-lint" (Demo.opened "repo/mychart-1.2.3.tgz")
           "mychart" "1.2.3.tgz").
  - vm_compute. reflexivity.
  - vm_compute. reflexivity.
  - vm_compute. reflexivity.
  - vm_compute. reflexivity.
  - vm_compute. reflexivity.
  - discriminate.
  - vm_compute. reflexivity.
Defined.

Lemma archive_name_ignores_directories_witness :
  fst (lintChart "repo/mychart-1.2.3.tgz" [] "" false Demo.shelf)
  = fst (lint_dir "/tmp/helm-lint/mychart" [] "" false
           (Demo.unpacked Demo.shelf)).
Proof.
  apply (archive_name_ignores_directories "repo" "mychart" "1.2.3.tgz" [] ""
           false Demo.shelf Demo.shelf Demo.shelf (Demo.unpacked Demo.shelf)
           "/tmp/helm-lint" (Demo.opened "repo/mychart-1.2.3.tgz")).
  - vm_compute. reflexivity.
  - vm_compute. reflexivity.
  - vm_compute. reflexivity.
  - vm_compute. reflexivity.
  - discriminate.
  - vm_compute. reflexivity.
  - vm_compute. reflexivity.
  - vm_compute. reflexivity.
Defined.

Lemma archive_needs_a_name_before_a_hyphen_witness :
  snd (fst (lintChart "nohyphen.tgz" [] "" false Demo.plain))
  = Some (errorString ("unable to parse chart archive "
                       ++ fmt_q (filepath_Base "nohyphen.tgz")
                       ++ ", missing '-'")).
Proof.
  apply (archive_needs_a_name_before_a_hyphen "nohyphen.tgz" [] "" false
           Demo.plain Demo.plain Demo.plain (Demo.unpacked Demo.plain)
           "/tmp/helm-lint" (Demo.opened "nohyphen.tgz")).
  - vm_compute. reflexivity.
  - vm_compute. reflexivity.
  - vm_compute. reflexivity.
  - vm_compute. reflexivity.
  - intros Hex.
    apply (LastIndex_positive_iff (filepath_Base "nohyphen.tgz") "-") in Hex.
    vm_compute in Hex. discriminate.
Defined.

Lemma temporary_directory_is_removed_witness :
  exists d,
    snd (lintChart "corrupt-1.0.0.tgz" [] "" false Demo.plain)
    = snd (os_RemoveAll "/tmp/helm-lint" d)
    /\ forall file d2,
         os_Open "corrupt-1.0.0.tgz" Demo.plain = (inl file, d2) ->
         exists d', d = snd (os_Close file d').
Proof.
  apply (temporary_directory_is_removed "corrupt-1.0.0.tgz" [] "" false
           Demo.plain Demo.plain "/tmp/helm-lint").
  - vm_compute. reflexivity.
  - vm_compute. reflexivity.
Defined.

(** Without [Chart.yaml] nothing is asked of the engine and the file
    system stays as it is. *)
Lemma lintChart_result_shapes_witness :
  lintChart "missing" [] "" false Demo.plain
  = ((Linter_zero, Some errLintNoChart), Demo.plain).
Proof.
  rewrite (proj1 (lintChart_result_shapes "missing" [] "" false Demo.plain)
             eq_refl).
  vm_compute. reflexivity.
Defined.

(** Two charts linted (one clean, one with a warning below the
    tolerance), one path without chart, one archive skipped. *)
Lemma run_summary_counts_witness :
  fst (run (Demo.command false [] ["good"; "bare"; "missing"; "nohyphen.tgz"])
         Demo.start)
  = Some (errorString "2 chart(s) linted, 1 chart(s) failed").
Proof.
  assert (Hlen : Z.of_nat
                   (length (paths (Demo.command false []
                                     ["good"; "bare"; "missing"; "nohyphen.tgz"])))
                 < 2 ^ 63) by (vm_compute; reflexivity).
  destruct (run_summary_counts
              (Demo.command false [] ["good"; "bare"; "missing"; "nohyphen.tgz"])
              Demo.start [] Demo.plain eq_refl Hlen) as [Hr _].
  rewrite Hr. vm_compute. reflexivity.
Defined.

Lemma run_transcript_witness :
  written (snd (run (Demo.command true [] ["good"; "nohyphen.tgz"]) Demo.start))
  = [Stdout "==> Linting good"; Stdout "Lint OK"; Stdout "";
     Stdout "==> Skipping nohyphen.tgz";
     Stdout ("unable to parse chart archive " ++ Demo.quote ++ "nohyphen.tgz"
             ++ Demo.quote ++ ", missing '-'");
     Stdout "";
     Out ("1 chart(s) linted, no failures" ++ nl)].
Proof.
  assert (Hlen : Z.of_nat
                   (length (paths (Demo.command true [] ["good"; "nohyphen.tgz"])))
                 < 2 ^ 63) by (vm_compute; reflexivity).
  generalize (run_transcript (Demo.command true [] ["good"; "nohyphen.tgz"])
                Demo.start Hlen).
  vm_compute. intros E. exact E.
Defined.

Lemma lint_without_arguments_witness :
  fst (RunE (newLintCmd [] [] [] [] false "" "" "") [] Demo.start)
  = Some (errorString "0 chart(s) linted, 1 chart(s) failed").
Proof.
  apply (lint_without_arguments [] [] [] [] false "" "" "" Demo.start
           [] Demo.plain).
  - vm_compute. reflexivity.
  - vm_compute. reflexivity.
Defined.

End Examples.

End LintMore.
